(** * MCP OAuth token lifecycle

    A shallow embedding of the MCP OAuth module (the unit of
    apps/web/utils/ai/choose-rule/ai-choose-rule.ts that imports the MCP SDK's
    client/auth), the OAuth 2.0 authorization and token lifecycle
    manager: metadata discovery with its persisted cache and static
    fallback, client registration, authorization-code exchange, token
    refresh and the access-token provider.

    Conventions of the embedding.
    - JavaScript strings are [string]; a character stands for one code
      unit.  Truthiness of a string is "defined and not empty".
    - [undefined] and [null] are [None]; where Prisma distinguishes them in
      an update (undefined: leave the column alone, null: clear it) the
      argument is an option of the new column value.
    - A [Date] is its time value in milliseconds, a [Z]; the numbers of a
      token response ([expires_in]) are integers.
    - A thrown [Error] is its message.  The asynchronous functions run in a
      state-and-error monad over the [World]: the two Prisma tables, the
      journal of outbound network calls, the log, the number of clock
      readings taken so far and the identifier supply.  A throw keeps the
      writes done before it.
    - The MCP SDK calls, the integration catalog ([getIntegration],
      [getStaticCredentials]), the [URL] constructor and the clock belong to
      the environment [Env]; an SDK answer may depend on the calls made so
      far. *)

From Stdlib Require Import String Ascii List ZArith Bool Arith Lia.
Import ListNotations.

Local Open Scope string_scope.
Local Open Scope Z_scope.

(** ** JavaScript values *)

Module Js.

(** [!!s] for a string. *)
Definition truthy (s : string) : bool := negb (s =? "")%string.

(** [!!o] for a string that may be null or undefined. *)
Definition truthyO (o : option string) : bool :=
  match o with
  | Some s => truthy s
  | None => false
  end.

(** [a || b] on strings that may be undefined. *)
Definition or_else (a b : option string) : option string :=
  if truthyO a then a else b.

(** [!!n] for a number that may be undefined: zero is falsy. *)
Definition truthyN (n : option Z) : bool :=
  match n with
  | Some z => negb (z =? 0)
  | None => false
  end.

(** Relative index of [String.prototype.slice]. *)
Definition clampIndex (len i : Z) : Z :=
  if i <? 0 then Z.max (len + i) 0 else Z.min i len.

(** [s.slice(start, stop)]. *)
Definition slice (s : string) (start stop : Z) : string :=
  let len := Z.of_nat (String.length s) in
  let from := clampIndex len start in
  let to := clampIndex len stop in
  substring (Z.to_nat from) (Z.to_nat (Z.max (to - from) 0)) s.

(** [s.endsWith(suffix)]. *)
Definition endsWith (s suffix : string) : bool :=
  let n := String.length s in
  let k := String.length suffix in
  (k <=? n)%nat && (substring (n - k) k s =? suffix)%string.

(** [l.join(sep)]. *)
Fixpoint join (sep : string) (l : list string) : string :=
  match l with
  | [] => ""
  | [x] => x
  | x :: rest => x ++ sep ++ join sep rest
  end.

End Js.

(** A thrown error, identified with its message. *)
Inductive JsError : Type := MkError (message : string).

Definition message (e : JsError) : string :=
  match e with MkError m => m end.

Definition Result (A : Type) : Type := (JsError + A)%type.

(** ** Data model *)

Inductive AuthType : Type := OAuth | ApiToken.

(** [oauthConfig] of an integration definition: the static fallback. *)
Record OAuthConfig : Type := {
  oc_authorization_endpoint : string;
  oc_token_endpoint : string;
  oc_registration_endpoint : option string
}.

(** What [getIntegration] returns. *)
Record IntegrationConfig : Type := {
  serverUrl : option string;
  scopes : list string;
  authType : AuthType;
  oauthConfig : option OAuthConfig
}.

(** What [getStaticCredentials] returns. *)
Record StaticCredentials : Type := {
  clientId : option string;
  clientSecret : option string
}.

Record AuthorizationServerMetadata : Type := {
  issuer : string;
  authorization_endpoint : string;
  token_endpoint : string;
  registration_endpoint : option string;
  grant_types_supported : option (list string);
  response_types_supported : list string;
  token_endpoint_auth_methods_supported : option (list string);
  code_challenge_methods_supported : option (list string)
}.

Record OAuthProtectedResourceMetadata : Type := {
  authorization_servers : option (list string)
}.

Record OAuthClientInformation : Type := {
  client_id : string;
  client_secret : option string
}.

Record OAuthClientMetadata : Type := {
  client_name : string;
  redirect_uris : list string;
  grant_types : list string;
  response_types : list string;
  token_endpoint_auth_method : string;
  scope : string
}.

Record OAuthTokens : Type := {
  access_token : string;
  token_type : string;
  expires_in : option Z;
  refresh_token : option string
}.

(** Row of the [mcpIntegration] table. *)
Record McpIntegration : Type := {
  mi_id : nat;
  mi_name : string;
  registeredAuthorizationUrl : option string;
  registeredTokenUrl : option string;
  registeredServerUrl : option string;
  oauthClientId : option string;
  oauthClientSecret : option string
}.

(** Row of the [mcpConnection] table. *)
Record McpConnection : Type := {
  mc_id : nat;
  mc_name : string;
  emailAccountId : string;
  integrationId : nat;
  accessToken : option string;
  refreshToken : option string;
  expiresAt : option Z;
  isActive : bool;
  apiKey : option string
}.

(** The [data] argument of [upsertMcpIntegration]: an absent field is
    [None]; [oauthClientSecret] may also be given as null. *)
Record IntegrationData : Type := {
  d_registeredAuthorizationUrl : option string;
  d_registeredTokenUrl : option string;
  d_registeredServerUrl : option string;
  d_oauthClientId : option string;
  d_oauthClientSecret : option (option string)
}.

(** Outbound calls through the MCP SDK, with the arguments that identify
    the request. *)
Inductive NetCall : Type :=
| ProtectedResourceLookup (url : string)
| AuthServerLookup (url : string)
| Registration (endpoint : string) (clientMetadata : OAuthClientMetadata)
| CodeExchange (endpoint code codeVerifier redirectUri resource : string)
| RefreshExchange (endpoint token resource : string).

Inductive LogLevel : Type := LvInfo | LvWarn | LvError.

(** A log line: level, message and the [error] field of its context when
    the call site passes one (the other context fields are not kept). *)
Record LogEntry : Type := {
  level : LogLevel;
  text : string;
  logged_error : option JsError
}.

Record World : Type := {
  integrations : list McpIntegration;
  connections : list McpConnection;
  calls : list NetCall;
  logs : list LogEntry;
  clockReads : nat;
  nextId : nat
}.

(** The collaborators of the module. *)
Record Env : Type := {
  getIntegration : string -> Result IntegrationConfig;
  getStaticCredentials : string -> option StaticCredentials;
  (** the n-th reading of the clock, in milliseconds *)
  clock : nat -> Z;
  (** [new URL(s)]: the serialized URL, or the TypeError *)
  newURL : string -> Result string;
  sdk_protectedResource :
    list NetCall -> string -> Result (option OAuthProtectedResourceMetadata);
  sdk_authServer :
    list NetCall -> string -> Result (option AuthorizationServerMetadata);
  sdk_register :
    list NetCall -> string -> AuthorizationServerMetadata ->
    OAuthClientMetadata -> Result OAuthClientInformation;
  sdk_exchange :
    list NetCall -> string -> AuthorizationServerMetadata ->
    OAuthClientInformation -> string -> string -> string -> string ->
    Result OAuthTokens;
  sdk_refresh :
    list NetCall -> string -> AuthorizationServerMetadata ->
    OAuthClientInformation -> string -> string -> Result OAuthTokens
}.

(** ** The monad of the asynchronous functions *)

Definition M (A : Type) : Type := World -> Result A * World.

Definition ret {A} (a : A) : M A := fun w => (inr a, w).

Definition throw {A} (msg : string) : M A := fun w => (inl (MkError msg), w).

Definition bind {A B} (m : M A) (k : A -> M B) : M B :=
  fun w =>
    match m w with
    | (inl e, w') => (inl e, w')
    | (inr a, w') => k a w'
    end.

(** [try { m } catch (error) { h error }]. *)
Definition try_catch {A} (m : M A) (h : JsError -> M A) : M A :=
  fun w =>
    match m w with
    | (inl e, w') => h e w'
    | (inr a, w') => (inr a, w')
    end.

Definition lift {A} (r : Result A) : M A := fun w => (r, w).

Declare Scope m_scope.
Delimit Scope m_scope with m.
Notation "x <- m ;; k" := (bind m (fun x => k))
  (at level 61, m at next level, right associativity) : m_scope.
Notation "m ;;; k" := (bind m (fun _ => k))
  (at level 61, right associativity) : m_scope.
Local Open Scope m_scope.

Definition get_world : M World := fun w => (inr w, w).

(** The world after one more log line. *)
Definition with_log (e : LogEntry) (w : World) : World :=
  {| integrations := integrations w; connections := connections w;
     calls := calls w; logs := logs w ++ [e];
     clockReads := clockReads w; nextId := nextId w |}.

(** The world after one more outbound call. *)
Definition with_call (c : NetCall) (w : World) : World :=
  {| integrations := integrations w; connections := connections w;
     calls := calls w ++ [c]; logs := logs w;
     clockReads := clockReads w; nextId := nextId w |}.

(** The world after one more reading of the clock. *)
Definition tick (w : World) : World :=
  {| integrations := integrations w; connections := connections w;
     calls := calls w; logs := logs w; clockReads := S (clockReads w);
     nextId := nextId w |}.

Definition log (l : LogLevel) (msg : string) (err : option JsError) : M unit :=
  fun w =>
    (inr tt, with_log {| level := l; text := msg; logged_error := err |} w).

Definition record_call (c : NetCall) : M unit :=
  fun w => (inr tt, with_call c w).

Definition set_integrations (l : list McpIntegration) (bump : bool) : M unit :=
  fun w =>
    (inr tt,
     {| integrations := l; connections := connections w;
        calls := calls w; logs := logs w; clockReads := clockReads w;
        nextId := if bump then S (nextId w) else nextId w |}).

Definition set_connections (l : list McpConnection) (bump : bool) : M unit :=
  fun w =>
    (inr tt,
     {| integrations := integrations w; connections := l;
        calls := calls w; logs := logs w; clockReads := clockReads w;
        nextId := if bump then S (nextId w) else nextId w |}).

(** ** The Prisma tables *)

(** The value of a string that is truthy. *)
Definition truthy_val (o : option string) : option string :=
  match o with
  | Some s => if Js.truthy s then Some s else None
  | None => None
  end.

(** The value of a number that is truthy: defined and not zero. *)
Definition truthy_num (n : option Z) : option Z :=
  match n with
  | Some z => if Js.truthyN n then Some z else None
  | None => None
  end.

(** [o?.f] for a field that may itself be null or undefined. *)
Definition opt_field {A B} (o : option A) (f : A -> option B) : option B :=
  match o with
  | Some a => f a
  | None => None
  end.

(** [a === b] for two columns or strings that may be null. *)
Definition strict_eq (a b : option string) : bool :=
  match a, b with
  | Some x, Some y => (x =? y)%string
  | None, None => true
  | _, _ => false
  end.

(** A column left alone by an update when the given value is undefined. *)
Definition assign {A} (given : option A) (old : A) : A :=
  match given with
  | Some v => v
  | None => old
  end.

(** Replace the first row that satisfies [p]. *)
Fixpoint update_first {A} (p : A -> bool) (f : A -> A) (l : list A) : list A :=
  match l with
  | [] => []
  | x :: rest => if p x then f x :: rest else x :: update_first p f rest
  end.

Definition named (n : string) (r : McpIntegration) : bool :=
  (mi_name r =? n)%string.

Definition update_integration (d : IntegrationData) (r : McpIntegration)
  : McpIntegration :=
  {| mi_id := mi_id r;
     mi_name := mi_name r;
     registeredAuthorizationUrl :=
       assign (option_map Some (d_registeredAuthorizationUrl d))
              (registeredAuthorizationUrl r);
     registeredTokenUrl :=
       assign (option_map Some (d_registeredTokenUrl d)) (registeredTokenUrl r);
     registeredServerUrl :=
       assign (option_map Some (d_registeredServerUrl d))
              (registeredServerUrl r);
     oauthClientId :=
       assign (option_map Some (d_oauthClientId d)) (oauthClientId r);
     oauthClientSecret := assign (d_oauthClientSecret d) (oauthClientSecret r) |}.

Definition create_integration (id : nat) (n : string) (d : IntegrationData)
  : McpIntegration :=
  {| mi_id := id;
     mi_name := n;
     registeredAuthorizationUrl := d_registeredAuthorizationUrl d;
     registeredTokenUrl := d_registeredTokenUrl d;
     registeredServerUrl := d_registeredServerUrl d;
     oauthClientId := d_oauthClientId d;
     oauthClientSecret := assign (d_oauthClientSecret d) None |}.

Definition no_data : IntegrationData :=
  {| d_registeredAuthorizationUrl := None; d_registeredTokenUrl := None;
     d_registeredServerUrl := None; d_oauthClientId := None;
     d_oauthClientSecret := None |}.

(** [prisma.mcpIntegration.findUnique({ where: { name } })]. *)
Definition mcpIntegration_findUnique (n : string) : M (option McpIntegration) :=
  fun w => (inr (find (named n) (integrations w)), w).

(** [prisma.mcpIntegration.upsert({ where: { name }, update, create })]. *)
Definition mcpIntegration_upsert (n : string) (update create : IntegrationData)
  : M McpIntegration :=
  (w <- get_world ;;
   match find (named n) (integrations w) with
   | Some r =>
       set_integrations
         (update_first (named n) (update_integration update) (integrations w))
         false ;;;
       ret (update_integration update r)
   | None =>
       let r := create_integration (nextId w) n create in
       set_integrations (integrations w ++ [r]) true ;;;
       ret r
   end)%m.

Definition upsertMcpIntegration (integration : string) (data : IntegrationData)
  : M McpIntegration :=
  mcpIntegration_upsert integration data data.

(** The filter [{ emailAccountId, integration: { name }, isActive: true }]. *)
Definition active_connection_of (ints : list McpIntegration)
  (account integration : string) (c : McpConnection) : bool :=
  (emailAccountId c =? account)%string
  && match find (fun i => Nat.eqb (mi_id i) (integrationId c)) ints with
     | Some i => named integration i
     | None => false
     end
  && isActive c.

(** [prisma.mcpConnection.findFirst] with that filter. *)
Definition mcpConnection_findFirst (account integration : string)
  : M (option McpConnection) :=
  fun w =>
    (inr (find (active_connection_of (integrations w) account integration)
               (connections w)), w).

(** The compound unique key [emailAccountId_integrationId]. *)
Definition keyed (account : string) (iid : nat) (c : McpConnection) : bool :=
  (emailAccountId c =? account)%string && Nat.eqb (integrationId c) iid.

(** The columns an update of a connection may set; [None] is undefined. *)
Record ConnectionData : Type := {
  cd_accessToken : option string;
  cd_refreshToken : option string;
  cd_expiresAt : option Z;
  cd_isActive : option bool
}.

Definition update_connection (d : ConnectionData) (c : McpConnection)
  : McpConnection :=
  {| mc_id := mc_id c;
     mc_name := mc_name c;
     emailAccountId := emailAccountId c;
     integrationId := integrationId c;
     accessToken := assign (option_map Some (cd_accessToken d)) (accessToken c);
     refreshToken :=
       assign (option_map Some (cd_refreshToken d)) (refreshToken c);
     expiresAt := assign (option_map Some (cd_expiresAt d)) (expiresAt c);
     isActive := assign (cd_isActive d) (isActive c);
     apiKey := apiKey c |}.

(** [prisma.mcpConnection.upsert]; [create] receives the new row's id. *)
Definition mcpConnection_upsert (account : string) (iid : nat)
  (update : ConnectionData) (create : nat -> McpConnection) : M McpConnection :=
  (w <- get_world ;;
   match find (keyed account iid) (connections w) with
   | Some c =>
       set_connections
         (update_first (keyed account iid) (update_connection update)
                       (connections w)) false ;;;
       ret (update_connection update c)
   | None =>
       let c := create (nextId w) in
       set_connections (connections w ++ [c]) true ;;;
       ret c
   end)%m.

Definition identified (id : nat) (account : string) (c : McpConnection) : bool :=
  Nat.eqb (mc_id c) id && (emailAccountId c =? account)%string.

(** [prisma.mcpConnection.update({ where: { id, emailAccountId }, data })];
    Prisma rejects the update when no row matches. *)
Definition mcpConnection_update (id : nat) (account : string)
  (data : ConnectionData) : M McpConnection :=
  (w <- get_world ;;
   match find (identified id account) (connections w) with
   | Some c =>
       set_connections
         (update_first (identified id account) (update_connection data)
                       (connections w)) false ;;;
       ret (update_connection data c)
   | None => throw "No record was found for an update."
   end)%m.

(** ** The module *)

(** Conservative default expiration window when the provider returns no
    [expires_in]: one hour. *)
Definition DEFAULT_TOKEN_EXPIRY_MS : Z := 60 * 60 * 1000.

Definition createAuthServerMetadata (issuer authorizationEndpoint
  tokenEndpoint : string) (registrationEndpoint : option string)
  : AuthorizationServerMetadata :=
  {| issuer := issuer;
     authorization_endpoint := authorizationEndpoint;
     token_endpoint := tokenEndpoint;
     registration_endpoint := truthy_val registrationEndpoint;
     grant_types_supported := Some ["authorization_code"; "refresh_token"];
     response_types_supported := ["code"];
     token_endpoint_auth_methods_supported := Some ["none"];
     code_challenge_methods_supported := Some ["S256"; "plain"] |}.

Definition getOAuthServerUrl (integrationConfig : IntegrationConfig) : string :=
  let serverUrl := assign (truthy_val (serverUrl integrationConfig)) "" in
  if Js.endsWith serverUrl "/mcp" then Js.slice serverUrl 0 (-4) else serverUrl.

(** [resourceMetadata?.authorization_servers?.[0]] when it is truthy. *)
Definition first_authorization_server
  (resourceMetadata : option OAuthProtectedResourceMetadata) : option string :=
  match resourceMetadata with
  | Some rm =>
      match authorization_servers rm with
      | Some (u :: _) => truthy_val (Some u)
      | _ => None
      end
  | None => None
  end.

(** The cached endpoints of a stored integration row, when the row has both
    and was written for [serverUrl]. *)
Definition cached_endpoints (stored : option McpIntegration)
  (serverUrl : string) : option (string * string) :=
  match stored with
  | Some r =>
      match truthy_val (registeredAuthorizationUrl r),
            truthy_val (registeredTokenUrl r) with
      | Some a, Some t =>
          if strict_eq (registeredServerUrl r) (Some serverUrl)
          then Some (a, t) else None
      | _, _ => None
      end
  | None => None
  end.

Definition discovery_cache (metadata : AuthorizationServerMetadata)
  (serverUrl : string) : IntegrationData :=
  {| d_registeredAuthorizationUrl := Some (authorization_endpoint metadata);
     d_registeredTokenUrl := Some (token_endpoint metadata);
     d_registeredServerUrl := Some serverUrl;
     d_oauthClientId := None;
     d_oauthClientSecret := None |}.

Definition no_access_token (integration : string) : string :=
  "No access token found for " ++ integration
  ++ ". Please connect the integration first.".

Definition reconnect_required (integration : string) : string :=
  "Access token for " ++ integration
  ++ " has expired and no refresh token is available. Please reconnect.".

Definition no_server_url (integration : string) : string :=
  "No server URL configured for " ++ integration.

Definition redirect_uri_required (integration : string) : string :=
  "redirectUri is required for dynamic client registration for " ++ integration.

Definition no_refresh_token (integration account : string) : string :=
  "No refresh token found for " ++ integration ++ " connection " ++ account.

Definition discovery_failed (integration : string) : string :=
  "Could not discover OAuth endpoints for " ++ integration
  ++ ". Server may not support OAuth discovery and no fallback config is available.".

Definition registration_unsupported (integration : string) : string :=
  "Dynamic registration not supported for " ++ integration
  ++ ". Please configure static OAuth credentials.".

Definition no_api_key (integration : string) : string :=
  "No API key found for " ++ integration
  ++ ". Please configure the integration first.".

Section McpOAuth.

Variable env : Env.

(** [Date.now()], also the time value of [new Date()]. *)
Definition Date_now : M Z :=
  fun w => (inr (clock env (clockReads w)), tick w).

Definition discoverOAuthProtectedResourceMetadata (url : string)
  : M (option OAuthProtectedResourceMetadata) :=
  (w <- get_world ;;
   record_call (ProtectedResourceLookup url) ;;;
   lift (sdk_protectedResource env (calls w) url))%m.

Definition discoverAuthorizationServerMetadata (url : string)
  : M (option AuthorizationServerMetadata) :=
  (w <- get_world ;;
   record_call (AuthServerLookup url) ;;;
   lift (sdk_authServer env (calls w) url))%m.

Definition registerClient (endpoint : string)
  (metadata : AuthorizationServerMetadata) (clientMetadata : OAuthClientMetadata)
  : M OAuthClientInformation :=
  (w <- get_world ;;
   record_call (Registration endpoint clientMetadata) ;;;
   lift (sdk_register env (calls w) endpoint metadata clientMetadata))%m.

Definition exchangeAuthorization (endpoint : string)
  (metadata : AuthorizationServerMetadata)
  (clientInformation : OAuthClientInformation)
  (authorizationCode codeVerifier redirectUri resource : string)
  : M OAuthTokens :=
  (w <- get_world ;;
   record_call
     (CodeExchange endpoint authorizationCode codeVerifier redirectUri resource) ;;;
   lift (sdk_exchange env (calls w) endpoint metadata clientInformation
           authorizationCode codeVerifier redirectUri resource))%m.

Definition refreshAuthorization (endpoint : string)
  (metadata : AuthorizationServerMetadata)
  (clientInformation : OAuthClientInformation) (refreshToken resource : string)
  : M OAuthTokens :=
  (w <- get_world ;;
   record_call (RefreshExchange endpoint refreshToken resource) ;;;
   lift (sdk_refresh env (calls w) endpoint metadata clientInformation
           refreshToken resource))%m.

Definition calculateTokenExpiration (expiresIn : option Z) : M Z :=
  (match truthy_num expiresIn with
   | Some seconds =>
       now <- Date_now ;;
       ret (now + seconds * 1000)
   | None =>
       log LvWarn
         "OAuth provider did not return expires_in, using default expiry"
         None ;;;
       now <- Date_now ;;
       ret (now + DEFAULT_TOKEN_EXPIRY_MS)
   end)%m.

Definition discoverMetadata (serverUrl integration : string)
  : M AuthorizationServerMetadata :=
  (integrationConfig <- lift (getIntegration env integration) ;;
   stored <- mcpIntegration_findUnique integration ;;
   match cached_endpoints stored serverUrl with
   | Some (authorizationUrl, tokenUrl) =>
       log LvInfo "Using cached OAuth metadata" None ;;;
       ret (createAuthServerMetadata serverUrl authorizationUrl tokenUrl None)
   | None =>
       log LvInfo "Discovering OAuth metadata from server" None ;;;
       try_catch
         (authServerUrl <-
            try_catch
              (resourceMetadata <-
                 discoverOAuthProtectedResourceMetadata serverUrl ;;
               match first_authorization_server resourceMetadata with
               | Some u =>
                   log LvInfo
                     "Found auth server via protected resource metadata"
                     None ;;;
                   ret u
               | None => ret serverUrl
               end)
              (fun _ =>
                 log LvInfo
                   "Protected resource metadata not available, using server URL directly"
                   None ;;;
                 ret serverUrl) ;;
          found <- discoverAuthorizationServerMetadata authServerUrl ;;
          match found with
          | None => throw "OAuth metadata discovery returned no results"
          | Some metadata =>
              upsertMcpIntegration integration
                (discovery_cache metadata serverUrl) ;;;
              log LvInfo "OAuth metadata discovered and cached" None ;;;
              ret metadata
          end)
         (fun error =>
            log LvWarn
              "Failed to discover OAuth metadata, trying fallback config"
              (Some error) ;;;
            match oauthConfig integrationConfig with
            | Some oc =>
                log LvInfo "Using static OAuth config fallback" None ;;;
                let metadata :=
                  createAuthServerMetadata serverUrl
                    (oc_authorization_endpoint oc) (oc_token_endpoint oc)
                    (oc_registration_endpoint oc) in
                upsertMcpIntegration integration
                  (discovery_cache metadata serverUrl) ;;;
                ret metadata
            | None =>
                log LvError "No fallback OAuth config available"
                  (Some error) ;;;
                throw (discovery_failed integration)
            end)
   end)%m.

Definition getMetadataForIntegration (integrationConfig : IntegrationConfig)
  (integration : string) : M AuthorizationServerMetadata :=
  let oauthServerUrl := getOAuthServerUrl integrationConfig in
  discoverMetadata oauthServerUrl integration.

Definition getOAuthClient (integration : string) (redirectUri : option string)
  : M OAuthClientInformation :=
  (integrationConfig <- lift (getIntegration env integration) ;;
   let staticCreds := getStaticCredentials env integration in
   match truthy_val (opt_field staticCreds clientId) with
   | Some id =>
       log LvInfo "Using static OAuth credentials" None ;;;
       ret {| client_id := id;
              client_secret := opt_field staticCreds clientSecret |}
   | None =>
       stored <- mcpIntegration_findUnique integration ;;
       match truthy_val (opt_field stored oauthClientId) with
       | Some id =>
           log LvInfo "Using stored OAuth credentials" None ;;;
           ret {| client_id := id;
                  client_secret :=
                    Js.or_else (opt_field stored oauthClientSecret) None |}
       | None =>
           match truthy_val (serverUrl integrationConfig) with
           | None => throw (no_server_url integration)
           | Some _ =>
               match truthy_val redirectUri with
               | None => throw (redirect_uri_required integration)
               | Some uri =>
                   log LvInfo "Performing dynamic client registration" None ;;;
                   let oauthServerUrl := getOAuthServerUrl integrationConfig in
                   metadata <- discoverMetadata oauthServerUrl integration ;;
                   match truthy_val (registration_endpoint metadata) with
                   | None => throw (registration_unsupported integration)
                   | Some endpoint =>
                       let clientMetadata :=
                         {| client_name := "Inbox Zero";
                            redirect_uris := [uri];
                            grant_types :=
                              ["authorization_code"; "refresh_token"];
                            response_types := ["code"];
                            token_endpoint_auth_method := "none";
                            scope := Js.join " " (scopes integrationConfig) |} in
                       registered <-
                         registerClient endpoint metadata clientMetadata ;;
                       upsertMcpIntegration integration
                         {| d_registeredAuthorizationUrl := None;
                            d_registeredTokenUrl := None;
                            d_registeredServerUrl := None;
                            d_oauthClientId := Some (client_id registered);
                            d_oauthClientSecret :=
                              option_map Some (client_secret registered) |} ;;;
                       log LvInfo "Dynamic client registration successful"
                         None ;;;
                       ret {| client_id := client_id registered;
                              client_secret := client_secret registered |}
                   end
               end
           end
       end
   end)%m.

Definition handleOAuthCallback (integration code codeVerifier redirectUri
  emailAccountId : string) : M OAuthTokens :=
  (integrationConfig <- lift (getIntegration env integration) ;;
   match truthy_val (serverUrl integrationConfig) with
   | None => throw (no_server_url integration)
   | Some url =>
       clientInfo <- getOAuthClient integration (Some redirectUri) ;;
       metadata <- getMetadataForIntegration integrationConfig integration ;;
       resource <- lift (newURL env url) ;;
       tokens <-
         exchangeAuthorization (token_endpoint metadata) metadata clientInfo
           code codeVerifier redirectUri resource ;;
       dbIntegration <- mcpIntegration_upsert integration no_data no_data ;;
       expiresAt <- calculateTokenExpiration (expires_in tokens) ;;
       mcpConnection_upsert emailAccountId (mi_id dbIntegration)
         {| cd_accessToken := Some (access_token tokens);
            cd_refreshToken := Js.or_else (refresh_token tokens) None;
            cd_expiresAt := Some expiresAt;
            cd_isActive := Some true |}
         (fun id =>
            {| mc_id := id;
               mc_name := integration;
               emailAccountId := emailAccountId;
               integrationId := mi_id dbIntegration;
               accessToken := Some (access_token tokens);
               refreshToken := Js.or_else (refresh_token tokens) None;
               expiresAt := Some expiresAt;
               isActive := true;
               apiKey := None |}) ;;;
       log LvInfo "OAuth callback completed" None ;;;
       ret tokens
   end)%m.

Definition refreshOAuthTokens (integration emailAccountId : string)
  : M OAuthTokens :=
  (integrationConfig <- lift (getIntegration env integration) ;;
   match truthy_val (serverUrl integrationConfig) with
   | None => throw (no_server_url integration)
   | Some url =>
       connection <- mcpConnection_findFirst emailAccountId integration ;;
       match connection, truthy_val (opt_field connection refreshToken) with
       | Some c, Some storedRefreshToken =>
           clientInfo <- getOAuthClient integration None ;;
           metadata <- getMetadataForIntegration integrationConfig integration ;;
           resource <- lift (newURL env url) ;;
           tokens <-
             refreshAuthorization (token_endpoint metadata) metadata clientInfo
               storedRefreshToken resource ;;
           expiresAt <- calculateTokenExpiration (expires_in tokens) ;;
           mcpConnection_update (mc_id c) emailAccountId
             {| cd_accessToken := Some (access_token tokens);
                cd_refreshToken :=
                  Js.or_else (refresh_token tokens) (refreshToken c);
                cd_expiresAt := Some expiresAt;
                cd_isActive := None |} ;;;
           log LvInfo "OAuth tokens refreshed" None ;;;
           ret tokens
       | _, _ => throw (no_refresh_token integration emailAccountId)
       end
   end)%m.

Definition getValidAccessToken (integration emailAccountId : string)
  : M string :=
  (connection <- mcpConnection_findFirst emailAccountId integration ;;
   match connection, truthy_val (opt_field connection accessToken) with
   | Some c, Some storedAccessToken =>
       now <- Date_now ;;
       let isExpired :=
         match expiresAt c with
         | Some t => t <? now
         | None => false
         end in
       if isExpired && Js.truthyO (refreshToken c) then
         log LvInfo "Access token expired, refreshing" None ;;;
         tokens <- refreshOAuthTokens integration emailAccountId ;;
         ret (access_token tokens)
       else if isExpired then
         throw (reconnect_required integration)
       else
         ret storedAccessToken
   | _, _ => throw (no_access_token integration)
   end)%m.

Definition getAuthToken (integration emailAccountId : string) : M string :=
  (integrationConfig <- lift (getIntegration env integration) ;;
   match authType integrationConfig with
   | ApiToken =>
       connection <- mcpConnection_findFirst emailAccountId integration ;;
       match truthy_val (opt_field connection apiKey) with
       | Some key => ret key
       | None => throw (no_api_key integration)
       end
   | OAuth => getValidAccessToken integration emailAccountId
   end)%m.

End McpOAuth.

(** ** Observations on a run *)

(** Number of refresh-token exchanges in a journal of calls. *)
Definition refresh_exchanges (l : list NetCall) : nat :=
  List.length (filter (fun c => match c with
                                | RefreshExchange _ _ _ => true
                                | _ => false
                                end) l).

(** A computation keeps the relation [R] between the world it starts in and
    the world it leaves, whether it returns or throws. *)
Definition preserves (R : World -> World -> Prop) {A} (m : M A) : Prop :=
  forall w, R w (snd (m w)).

(** What discovery and client resolution leave alone: the connections, the
    clock and the number of refresh exchanges. *)
Definition quiet (w w' : World) : Prop :=
  connections w' = connections w /\
  clockReads w' = clockReads w /\
  refresh_exchanges (calls w') = refresh_exchanges (calls w).

(** The client credentials stored for the integration named [n]. *)
Definition stored_credentials (w : World) (n : string)
  : option string * option string :=
  (opt_field (find (named n) (integrations w)) oauthClientId,
   opt_field (find (named n) (integrations w)) oauthClientSecret).

(** No row loses or changes its stored client credentials. *)
Definition same_credentials (w w' : World) : Prop :=
  forall n, stored_credentials w' n = stored_credentials w n.

(** The connection row that [getValidAccessToken] and [refreshOAuthTokens]
    read. *)
Definition connection_of (w : World) (account integration : string)
  : option McpConnection :=
  find (active_connection_of (integrations w) account integration)
       (connections w).

Definition refreshing : LogEntry :=
  {| level := LvInfo; text := "Access token expired, refreshing";
     logged_error := None |}.

(** The journal of outbound calls is the same. *)
Definition same_calls (w w' : World) : Prop := calls w' = calls w.

(** The authorization server that live discovery settles on: the first one
    the protected-resource metadata names, else the server itself. *)
Definition resolved_auth_server (env : Env) (w : World) (serverUrl : string)
  : string :=
  match sdk_protectedResource env (calls w) serverUrl with
  | inr resourceMetadata =>
      assign (first_authorization_server resourceMetadata) serverUrl
  | inl _ => serverUrl
  end.

(** The answer to the authorization-server metadata lookup of a live
    discovery started in [w]. *)
Definition live_answer (env : Env) (w : World) (serverUrl : string)
  : Result (option AuthorizationServerMetadata) :=
  sdk_authServer env (calls w ++ [ProtectedResourceLookup serverUrl])
    (resolved_auth_server env w serverUrl).

(** The error with which that lookup fails, if it does: the SDK's own, or
    the one raised when the SDK returns nothing. *)
Definition lookup_failure (answer : Result (option AuthorizationServerMetadata))
  : option JsError :=
  match answer with
  | inl e => Some e
  | inr None => Some (MkError "OAuth metadata discovery returned no results")
  | inr (Some _) => None
  end.

(** The discovery columns of the row named [n]. *)
Definition cached (w : World) (n : string)
  : option (option string * option string * option string) :=
  option_map
    (fun r => (registeredAuthorizationUrl r, registeredTokenUrl r,
               registeredServerUrl r))
    (find (named n) (integrations w)).

Definition using_cache : LogEntry :=
  {| level := LvInfo; text := "Using cached OAuth metadata";
     logged_error := None |}.

Definition no_fallback (cause : JsError) : LogEntry :=
  {| level := LvError; text := "No fallback OAuth config available";
     logged_error := Some cause |}.

(** The metadata built from a static fallback configuration. *)
Definition fallback_metadata (serverUrl : string) (oc : OAuthConfig)
  : AuthorizationServerMetadata :=
  createAuthServerMetadata serverUrl (oc_authorization_endpoint oc)
    (oc_token_endpoint oc) (oc_registration_endpoint oc).

(** ** Scenarios

    Concrete catalogs, providers and stores on which the module is run. *)

Definition acme : IntegrationConfig :=
  {| serverUrl := Some "https://mcp.acme.com/mcp";
     scopes := ["read"; "write"];
     authType := OAuth;
     oauthConfig := None |}.

Definition plain : IntegrationConfig :=
  {| serverUrl := Some "https://api.plain.dev/v1";
     scopes := ["tickets"];
     authType := OAuth;
     oauthConfig :=
       Some {| oc_authorization_endpoint := "https://auth.plain.dev/authorize";
               oc_token_endpoint := "https://auth.plain.dev/token";
               oc_registration_endpoint := None |} |}.

(** An integration whose static fallback has an empty token endpoint. *)
Definition draft : IntegrationConfig :=
  {| serverUrl := Some "https://draft.example";
     scopes := [];
     authType := OAuth;
     oauthConfig :=
       Some {| oc_authorization_endpoint := "https://draft.example/authorize";
               oc_token_endpoint := "";
               oc_registration_endpoint := None |} |}.

Definition acme_metadata : AuthorizationServerMetadata :=
  {| issuer := "https://mcp.acme.com";
     authorization_endpoint := "https://mcp.acme.com/authorize";
     token_endpoint := "https://mcp.acme.com/token";
     registration_endpoint := Some "https://mcp.acme.com/register";
     grant_types_supported := None;
     response_types_supported := ["code"];
     token_endpoint_auth_methods_supported := None;
     code_challenge_methods_supported := Some ["S256"] |}.

(** A provider for "acme" that publishes its metadata, registers clients,
    and answers both grants without a refresh token; "plain" is in the
    catalog but its server answers no discovery request. *)
Definition provider : Env :=
  {| getIntegration := fun key =>
       if (key =? "acme")%string then inr acme
       else if (key =? "plain")%string then inr plain
       else inl (MkError ("Unknown integration: " ++ key));
     getStaticCredentials := fun _ => None;
     clock := fun n => 1700000000000 + Z.of_nat n;
     newURL := fun s => inr s;
     sdk_protectedResource := fun _ _ => inl (MkError "HTTP 404");
     sdk_authServer := fun _ url =>
       if (url =? "https://mcp.acme.com")%string
       then inr (Some acme_metadata)
       else inl (MkError "ECONNREFUSED");
     sdk_register := fun _ _ _ _ =>
       inr {| client_id := "dyn-client"; client_secret := None |};
     sdk_exchange := fun _ _ _ _ _ _ _ _ =>
       inr {| access_token := "at-fresh"; token_type := "Bearer";
              expires_in := Some 3600; refresh_token := None |};
     sdk_refresh := fun _ _ _ _ _ _ =>
       inr {| access_token := "at-new"; token_type := "Bearer";
              expires_in := None; refresh_token := None |} |}.

(** The same provider with its authorization-server metadata endpoint
    failing, for every server, with the given error. *)
Definition offline (cause : string) : Env :=
  {| getIntegration := getIntegration provider;
     getStaticCredentials := getStaticCredentials provider;
     clock := clock provider;
     newURL := newURL provider;
     sdk_protectedResource := sdk_protectedResource provider;
     sdk_authServer := fun _ _ => inl (MkError cause);
     sdk_register := sdk_register provider;
     sdk_exchange := sdk_exchange provider;
     sdk_refresh := sdk_refresh provider |}.

(** The same provider with a token endpoint that rejects the refresh
    grant. *)
Definition rejecting : Env :=
  {| getIntegration := getIntegration provider;
     getStaticCredentials := getStaticCredentials provider;
     clock := clock provider;
     newURL := newURL provider;
     sdk_protectedResource := sdk_protectedResource provider;
     sdk_authServer := sdk_authServer provider;
     sdk_register := sdk_register provider;
     sdk_exchange := sdk_exchange provider;
     sdk_refresh := fun _ _ _ _ _ _ => inl (MkError "invalid_grant") |}.

(** The same provider answering the code exchange with a lifetime of zero
    seconds. *)
Definition zero_lifetime : Env :=
  {| getIntegration := getIntegration provider;
     getStaticCredentials := getStaticCredentials provider;
     clock := clock provider;
     newURL := newURL provider;
     sdk_protectedResource := sdk_protectedResource provider;
     sdk_authServer := sdk_authServer provider;
     sdk_register := sdk_register provider;
     sdk_exchange := fun _ _ _ _ _ _ _ _ =>
       inr {| access_token := "at-fresh"; token_type := "Bearer";
              expires_in := Some 0; refresh_token := None |};
     sdk_refresh := sdk_refresh provider |}.

Definition draft_catalog : Env :=
  {| getIntegration := fun _ => inr draft;
     getStaticCredentials := getStaticCredentials provider;
     clock := clock provider;
     newURL := newURL provider;
     sdk_protectedResource := sdk_protectedResource provider;
     sdk_authServer := sdk_authServer provider;
     sdk_register := sdk_register provider;
     sdk_exchange := sdk_exchange provider;
     sdk_refresh := sdk_refresh provider |}.

Definition acme_row : McpIntegration :=
  {| mi_id := 1; mi_name := "acme";
     registeredAuthorizationUrl := Some "https://mcp.acme.com/authorize";
     registeredTokenUrl := Some "https://mcp.acme.com/token";
     registeredServerUrl := Some "https://mcp.acme.com";
     oauthClientId := Some "dyn-client";
     oauthClientSecret := None |}.

(** A store with the "acme" row and one active connection of "acct-1". *)
Definition store (expires : option Z) (refresh : option string) : World :=
  {| integrations := [acme_row];
     connections :=
       [{| mc_id := 2; mc_name := "acme"; emailAccountId := "acct-1";
           integrationId := 1; accessToken := Some "at-old";
           refreshToken := refresh; expiresAt := expires;
           isActive := true; apiKey := None |}];
     calls := []; logs := []; clockReads := 0; nextId := 3 |}.

(** A store in which nothing was ever connected. *)
Definition empty_store : World :=
  {| integrations := []; connections := []; calls := []; logs := [];
     clockReads := 0; nextId := 1 |}.

(** A store whose only connection of "acct-1" to "acme" was deactivated; it
    still holds an access token that never expires. *)
Definition deactivated_store : World :=
  {| integrations := [acme_row];
     connections :=
       [{| mc_id := 2; mc_name := "acme"; emailAccountId := "acct-1";
           integrationId := 1; accessToken := Some "at-old";
           refreshToken := Some "rt-old"; expiresAt := None;
           isActive := false; apiKey := None |}];
     calls := []; logs := []; clockReads := 0; nextId := 3 |}.

(** ** The authorization flow initiator *)

Definition no_authorization_endpoint (integration : string) : string :=
  "No authorization endpoint found for " ++ integration
  ++ ". OAuth discovery may have failed.".

(** What [generateOAuthUrl] returns. *)
Record AuthorizationStart : Type := {
  start_url : string;
  start_codeVerifier : string
}.

Section AuthorizationFlow.

Variable env : Env.

(** [startAuthorization] of the SDK.  It sends nothing: it checks the
    metadata, draws the PKCE verifier and builds the redirect URL, so it is
    no outbound call; what it draws may depend on the world it runs in.  Its
    arguments: the authorization endpoint, the metadata, the client, the
    redirect URL, the scope, the state and the resource. *)
Variable sdk_startAuthorization :
  World -> string -> AuthorizationServerMetadata -> OAuthClientInformation ->
  string -> string -> string -> string -> Result AuthorizationStart.

Definition generateOAuthUrl (integration redirectUri state : string)
  : M AuthorizationStart :=
  (integrationConfig <- lift (getIntegration env integration) ;;
   match truthy_val (serverUrl integrationConfig) with
   | None => throw (no_server_url integration)
   | Some url =>
       clientInfo <- getOAuthClient env integration (Some redirectUri) ;;
       metadata <- getMetadataForIntegration env integrationConfig integration ;;
       match truthy_val (Some (authorization_endpoint metadata)) with
       | None => throw (no_authorization_endpoint integration)
       | Some endpoint =>
           resource <- lift (newURL env url) ;;
           w <- get_world ;;
           result <-
             lift (sdk_startAuthorization w endpoint metadata clientInfo
                     redirectUri (Js.join " " (scopes integrationConfig))
                     state resource) ;;
           log LvInfo "OAuth flow started" None ;;;
           ret result
       end
   end)%m.

End AuthorizationFlow.

(** ** Rule selection *)

(** The object the model returns. *)
Record AiResponse : Type := {
  ai_reason : string;
  ai_ruleName : string;
  ai_noMatchFound : bool
}.

(** What [aiChooseRule] returns; [chosen_rule] is absent when no rule was
    given and undefined when none was selected. *)
Record ChosenRule (T : Type) : Type := {
  chosen_rule : option T;
  chosen_reason : string
}.

Arguments chosen_rule {T} _.
Arguments chosen_reason {T} _.

Section ChooseRule.

(** The rules are any records with a [name]. *)
Variable T : Type.
Variable name : T -> string.

(** [String.prototype.toLowerCase]. *)
Variable toLowerCase : string -> string.

(** [getAiResponse] for the email and account at hand: the prompt it builds
    and the model's answer to it; the call may throw. *)
Variable getAiResponse : list T -> Result AiResponse.

Definition aiChooseRule (rules : list T) : M (ChosenRule T) :=
  (match rules with
   | [] => ret {| chosen_rule := None; chosen_reason := "No rules" |}
   | _ :: _ =>
       aiResponse <- lift (getAiResponse rules) ;;
       if ai_noMatchFound aiResponse then
         ret {| chosen_rule := None; chosen_reason := "No match found" |}
       else
         let selectedRule :=
           if Js.truthy (ai_ruleName aiResponse) then
             find (fun rule =>
                     (toLowerCase (name rule)
                      =? toLowerCase (ai_ruleName aiResponse))%string)
                  rules
           else None in
         (if Js.truthy (ai_ruleName aiResponse)
             && match selectedRule with Some _ => false | None => true end
          then log LvError "No matching rule found" None
          else ret tt) ;;;
         ret {| chosen_rule := selectedRule;
                chosen_reason := ai_reason aiResponse |}
   end)%m.

End ChooseRule.

(** ** Store invariants *)

Definition has_id (id : nat) (r : McpIntegration) : bool :=
  Nat.eqb (mi_id r) id.

(** The constraints of the [mcpIntegration] table: unique names, unique
    ids, ids below the identifier supply. *)
Definition integrations_ok (w : World) : Prop :=
  NoDup (map mi_name (integrations w)) /\
  NoDup (map mi_id (integrations w)) /\
  (forall id, In id (map mi_id (integrations w)) -> (id < nextId w)%nat).

Definition connection_key (c : McpConnection) : string * nat :=
  (emailAccountId c, integrationId c).

(** The constraints of the [mcpConnection] table: unique ids, one row per
    (account, integration), ids below the identifier supply. *)
Definition connections_ok (w : World) : Prop :=
  NoDup (map mc_id (connections w)) /\
  NoDup (map connection_key (connections w)) /\
  (forall id, In id (map mc_id (connections w)) -> (id < nextId w)%nat).

Definition well_formed (w : World) : Prop :=
  integrations_ok w /\ connections_ok w.

(** A computation keeps the constraints of both tables. *)
Definition keeps_well_formed (w w' : World) : Prop :=
  well_formed w -> well_formed w'.

(** The tables and the identifier supply are the same. *)
Definition same_tables (w w' : World) : Prop :=
  integrations w' = integrations w /\
  connections w' = connections w /\
  nextId w' = nextId w.

(** An integration that authenticates with an API key. *)
Definition notes : IntegrationConfig :=
  {| serverUrl := None;
     scopes := [];
     authType := ApiToken;
     oauthConfig := None |}.

Definition keyed_catalog : Env :=
  {| getIntegration := fun key =>
       if (key =? "notes")%string then inr notes
       else getIntegration provider key;
     getStaticCredentials := fun key =>
       if (key =? "acme")%string
       then Some {| clientId := Some "static-client";
                    clientSecret := Some "static-secret" |}
       else None;
     clock := clock provider;
     newURL := newURL provider;
     sdk_protectedResource := sdk_protectedResource provider;
     sdk_authServer := sdk_authServer provider;
     sdk_register := sdk_register provider;
     sdk_exchange := sdk_exchange provider;
     sdk_refresh := sdk_refresh provider |}.

(** A store with a "notes" row and the API key of "acct-1" for it; the
    OAuth columns of the connection are those of a lapsed token. *)
Definition keyed_store : World :=
  {| integrations :=
       [{| mi_id := 1; mi_name := "notes";
           registeredAuthorizationUrl := None; registeredTokenUrl := None;
           registeredServerUrl := None; oauthClientId := None;
           oauthClientSecret := None |}];
     connections :=
       [{| mc_id := 2; mc_name := "notes"; emailAccountId := "acct-1";
           integrationId := 1; accessToken := None;
           refreshToken := Some "rt-old"; expiresAt := Some 0;
           isActive := true; apiKey := Some "key-123" |}];
     calls := []; logs := []; clockReads := 0; nextId := 3 |}.

(** The same provider with a registration endpoint that is down. *)
Definition registration_down : Env :=
  {| getIntegration := getIntegration provider;
     getStaticCredentials := getStaticCredentials provider;
     clock := clock provider;
     newURL := newURL provider;
     sdk_protectedResource := sdk_protectedResource provider;
     sdk_authServer := sdk_authServer provider;
     sdk_register := fun _ _ _ _ => inl (MkError "HTTP 503");
     sdk_exchange := sdk_exchange provider;
     sdk_refresh := sdk_refresh provider |}.

Definition static_credentials_line : LogEntry :=
  {| level := LvInfo; text := "Using static OAuth credentials";
     logged_error := None |}.

Definition stored_credentials_line : LogEntry :=
  {| level := LvInfo; text := "Using stored OAuth credentials";
     logged_error := None |}.

(** The same provider behind a resource server that names its
    authorization server. *)
Definition delegating : Env :=
  {| getIntegration := getIntegration provider;
     getStaticCredentials := getStaticCredentials provider;
     clock := clock provider;
     newURL := newURL provider;
     sdk_protectedResource := fun _ _ =>
       inr (Some {| authorization_servers := Some ["https://login.acme.com"] |});
     sdk_authServer := sdk_authServer provider;
     sdk_register := sdk_register provider;
     sdk_exchange := sdk_exchange provider;
     sdk_refresh := sdk_refresh provider |}.

(** The requests of discovery and registration, as opposed to the two
    token requests. *)
Definition is_setup_call (c : NetCall) : bool :=
  match c with
  | ProtectedResourceLookup _ | AuthServerLookup _ | Registration _ _ => true
  | CodeExchange _ _ _ _ _ | RefreshExchange _ _ _ => false
  end.

(** Every request sent between [w] and [w'] is one of discovery or
    registration. *)
Definition setup_only (w w' : World) : Prop :=
  exists sent, calls w' = (calls w ++ sent)%list /\
               forallb is_setup_call sent = true.

(** A [startAuthorization] that accepts every request. *)
Definition pkce_start (w : World) (endpoint : string)
  (metadata : AuthorizationServerMetadata) (client : OAuthClientInformation)
  (redirectUri scope state resource : string) : Result AuthorizationStart :=
  inr {| start_url :=
           endpoint ++ "?response_type=code&client_id=" ++ client_id client
           ++ "&state=" ++ state;
         start_codeVerifier := "verifier" |}.

(** The lifetime, in milliseconds, that [calculateTokenExpiration] adds to
    the clock reading. *)
Definition lifetime_ms (expiresIn : option Z) : Z :=
  match truthy_num expiresIn with
  | Some seconds => seconds * 1000
  | None => DEFAULT_TOKEN_EXPIRY_MS
  end.

(** The [update] and [create] arguments of the connection upsert of
    [handleOAuthCallback]. *)
Definition callback_update (tokens : OAuthTokens) (expiry : Z) : ConnectionData :=
  {| cd_accessToken := Some (access_token tokens);
     cd_refreshToken := Js.or_else (refresh_token tokens) None;
     cd_expiresAt := Some expiry;
     cd_isActive := Some true |}.

Definition callback_row (integration account : string) (iid : nat)
  (tokens : OAuthTokens) (expiry : Z) (id : nat) : McpConnection :=
  {| mc_id := id;
     mc_name := integration;
     emailAccountId := account;
     integrationId := iid;
     accessToken := Some (access_token tokens);
     refreshToken := Js.or_else (refresh_token tokens) None;
     expiresAt := Some expiry;
     isActive := true;
     apiKey := None |}.

(** The ids and names of the integration rows, in table order. *)
Definition directory (l : list McpIntegration) : list (nat * string) :=
  map (fun r => (mi_id r, mi_name r)) l.

(** While a row named [n] exists, no integration row is added and none
    changes its id or name. *)
Definition same_directory (n : string) (w w' : World) : Prop :=
  In n (map mi_name (integrations w)) ->
  directory (integrations w') = directory (integrations w).

(** Lower case of the letters A to Z, for the scenarios. *)
Definition lower_ascii (c : ascii) : ascii :=
  let n := nat_of_ascii c in
  if ((65 <=? n) && (n <=? 90))%nat then ascii_of_nat (n + 32) else c.

Fixpoint lower (s : string) : string :=
  match s with
  | EmptyString => EmptyString
  | String c rest => String (lower_ascii c) (lower rest)
  end.

(** Two rules, as (name, instructions), and a model that always answers
    with the given object. *)
Definition inbox_rules : list (string * string) :=
  [("Newsletter", "Newsletters and product updates");
   ("Receipts", "Receipts and invoices")].

Definition answering (response : AiResponse)
  : list (string * string) -> Result AiResponse :=
  fun _ => inr response.

Definition no_matching_rule_line : LogEntry :=
  {| level := LvError; text := "No matching rule found";
     logged_error := None |}.

(** * Properties *)

(** ** Strings *)

Section StringFacts.

Local Open Scope nat_scope.

Lemma length_append (a b : string) :
  String.length (a ++ b) = String.length a + String.length b.
Proof.
  induction a as [|ch a IH]; simpl; [reflexivity | now rewrite IH].
Qed.

Lemma substring_all (b : string) : substring 0 (String.length b) b = b.
Proof.
  induction b as [|ch b IH]; simpl; [reflexivity | now rewrite IH].
Qed.

Lemma substring_past_prefix (a b : string) (n : nat) :
  substring (String.length a) n (a ++ b) = substring 0 n b.
Proof.
  induction a as [|ch a IH]; simpl; [reflexivity | exact IH].
Qed.

Lemma substring_prefix (a b : string) :
  substring 0 (String.length a) (a ++ b) = a.
Proof.
  induction a as [|ch a IH]; simpl.
  - destruct b; reflexivity.
  - now rewrite IH.
Qed.

Lemma substring_split (s : string) (m : nat) :
  m <= String.length s ->
  (substring 0 m s ++ substring m (String.length s - m) s)%string = s.
Proof.
  revert m; induction s as [|ch s IH]; intros m Hm; simpl in *.
  - destruct m; [reflexivity | lia].
  - destruct m as [|m]; simpl.
    + now rewrite substring_all.
    + rewrite IH by lia. reflexivity.
Qed.

Lemma endsWith_append (base suffix : string) :
  Js.endsWith (base ++ suffix) suffix = true.
Proof.
  unfold Js.endsWith. rewrite length_append.
  apply andb_true_intro; split.
  - apply Nat.leb_le. lia.
  - replace (String.length base + String.length suffix - String.length suffix)
      with (String.length base) by lia.
    rewrite substring_past_prefix, substring_all. apply String.eqb_refl.
Qed.

Lemma endsWith_inv (s suffix : string) :
  Js.endsWith s suffix = true -> exists base, s = (base ++ suffix)%string.
Proof.
  unfold Js.endsWith. intros H.
  apply andb_prop in H as [Hle Heq].
  apply Nat.leb_le in Hle. apply String.eqb_eq in Heq.
  exists (substring 0 (String.length s - String.length suffix) s).
  rewrite <- Heq at 2.
  pose proof (substring_split s (String.length s - String.length suffix)) as Hs.
  replace (String.length s - (String.length s - String.length suffix))
    with (String.length suffix) in Hs by lia.
  symmetry. apply Hs. lia.
Qed.

Lemma slice_drop_suffix (base : string) :
  Js.slice (base ++ "/mcp") 0 (-4) = base.
Proof.
  unfold Js.slice, Js.clampIndex. rewrite length_append. simpl String.length.
  replace (0 <? 0)%Z with false by reflexivity.
  replace (-4 <? 0)%Z with true by reflexivity.
  match goal with
  | |- substring ?i ?n _ = _ =>
      replace i with 0 by lia; replace n with (String.length base) by lia
  end.
  apply substring_prefix.
Qed.

Lemma truthy_append_mcp (base : string) :
  truthy_val (Some (base ++ "/mcp")%string) = Some (base ++ "/mcp")%string.
Proof. destruct base; reflexivity. Qed.

End StringFacts.

Lemma truthy_val_some (o : option string) (s : string) :
  truthy_val o = Some s <-> o = Some s /\ s <> "".
Proof.
  unfold truthy_val, Js.truthy. destruct o as [x|]; [|split; [discriminate | intros [H _]; discriminate]].
  destruct (String.eqb_spec x ""); simpl; split.
  - discriminate.
  - intros [H Hn]. inversion H; subst. contradiction.
  - intros H; inversion H; subst. split; [reflexivity | assumption].
  - intros [H _]. exact H.
Qed.

Lemma truthy_val_none (o : option string) :
  truthy_val o = None <-> o = None \/ o = Some "".
Proof.
  unfold truthy_val, Js.truthy. destruct o as [x|]; [|split; auto].
  destruct (String.eqb_spec x ""); simpl; split; subst; auto; try discriminate.
  intros [H|H]; [discriminate | inversion H; contradiction].
Qed.

(** C7.  A configured server URL ending in "/mcp" is handed to discovery
    with these four characters removed; any other configured server URL is
    handed over as it is. *)
Theorem oauth_server_url_strips_mcp_suffix (cfg : IntegrationConfig) (s : string) :
  serverUrl cfg = Some s ->
  (forall base, s = base ++ "/mcp" ->
     getOAuthServerUrl cfg = base /\
     forall env integration,
       getMetadataForIntegration env cfg integration
       = discoverMetadata env base integration) /\
  ((~ exists base, s = base ++ "/mcp") ->
     getOAuthServerUrl cfg = s /\
     forall env integration,
       getMetadataForIntegration env cfg integration
       = discoverMetadata env s integration).
Proof.
  intros Hs. split.
  - intros base ->.
    assert (E : getOAuthServerUrl cfg = base).
    { unfold getOAuthServerUrl. rewrite Hs, truthy_append_mcp. simpl assign.
      rewrite endsWith_append. apply slice_drop_suffix. }
    split; [exact E|]. intros env integration.
    unfold getMetadataForIntegration. now rewrite E.
  - intros Hno.
    assert (E : getOAuthServerUrl cfg = s).
    { unfold getOAuthServerUrl. rewrite Hs.
      destruct (truthy_val (Some s)) as [x|] eqn:Hx.
      - apply truthy_val_some in Hx as [Hx _]. inversion Hx; subst x.
        simpl assign. destruct (Js.endsWith s "/mcp") eqn:He; [|reflexivity].
        exfalso. apply Hno. now apply endsWith_inv.
      - apply truthy_val_none in Hx as [Hx|Hx]; [discriminate|].
        inversion Hx; subst. reflexivity. }
    split; [exact E|]. intros env integration.
    unfold getMetadataForIntegration. now rewrite E.
Qed.

Lemma oauth_server_url_strips_mcp_suffix_witness :
  getOAuthServerUrl acme = "https://mcp.acme.com" /\
  getOAuthServerUrl plain = "https://api.plain.dev/v1".
Proof.
  split.
  - exact (proj1 (proj1 (oauth_server_url_strips_mcp_suffix
                           acme "https://mcp.acme.com/mcp" eq_refl)
                        "https://mcp.acme.com" eq_refl)).
  - refine (proj1 (proj2 (oauth_server_url_strips_mcp_suffix
                            plain "https://api.plain.dev/v1" eq_refl) _)).
    intros [base Hbase].
    pose proof (endsWith_append base "/mcp") as H.
    rewrite <- Hbase in H. vm_compute in H. discriminate H.
Defined.

(** ** Running the monad *)

Ltac unfold_m :=
  unfold bind, ret, throw, lift, try_catch, get_world, log,
    record_call, set_integrations, set_connections in *.

Section Preservation.

Variable R : World -> World -> Prop.
Hypothesis R_refl : forall w, R w w.
Hypothesis R_trans : forall a b c, R a b -> R b c -> R a c.

Lemma preserves_ret {A} (a : A) : preserves R (ret a).
Proof. intros w. apply R_refl. Qed.

Lemma preserves_throw {A} (msg : string) : preserves R (@throw A msg).
Proof. intros w. apply R_refl. Qed.

Lemma preserves_lift {A} (r : Result A) : preserves R (lift r).
Proof. intros w. apply R_refl. Qed.

Lemma preserves_get_world : preserves R get_world.
Proof. intros w. apply R_refl. Qed.

Lemma preserves_findUnique (n : string) :
  preserves R (mcpIntegration_findUnique n).
Proof. intros w. apply R_refl. Qed.

Lemma preserves_findFirst (a i : string) :
  preserves R (mcpConnection_findFirst a i).
Proof. intros w. apply R_refl. Qed.

Lemma preserves_bind {A B} (m : M A) (k : A -> M B) :
  preserves R m -> (forall a, preserves R (k a)) -> preserves R (bind m k).
Proof.
  intros Hm Hk w. unfold bind.
  specialize (Hm w). destruct (m w) as [[e|a] w1]; simpl in *.
  - exact Hm.
  - eapply R_trans; [exact Hm | apply Hk].
Qed.

Lemma preserves_try_catch {A} (m : M A) (h : JsError -> M A) :
  preserves R m -> (forall e, preserves R (h e)) -> preserves R (try_catch m h).
Proof.
  intros Hm Hh w. unfold try_catch.
  specialize (Hm w). destruct (m w) as [[e|a] w1]; simpl in *.
  - eapply R_trans; [exact Hm | apply Hh].
  - exact Hm.
Qed.

End Preservation.

(** Walks through a computation built from binds, handlers and case
    analyses, leaving the primitive steps to [base]. *)
Ltac preserve_with refl trans base :=
  repeat first
    [ base
    | apply (preserves_bind _ trans); [| intro]
    | apply (preserves_try_catch _ trans); [| intro]
    | apply (preserves_ret _ refl)
    | apply (preserves_throw _ refl)
    | apply (preserves_lift _ refl)
    | apply (preserves_get_world _ refl)
    | apply (preserves_findUnique _ refl)
    | apply (preserves_findFirst _ refl)
    | match goal with
      | |- preserves _ (match ?x with _ => _ end) => destruct x
      | |- preserves _ (let _ := _ in _) => cbv zeta
      end ].

Lemma refresh_exchanges_app (l l' : list NetCall) :
  refresh_exchanges (l ++ l') = (refresh_exchanges l + refresh_exchanges l')%nat.
Proof. unfold refresh_exchanges. now rewrite filter_app, length_app. Qed.

Lemma quiet_refl (w : World) : quiet w w.
Proof. repeat split. Qed.

Lemma quiet_trans (a b c : World) : quiet a b -> quiet b c -> quiet a c.
Proof.
  intros (H1 & H2 & H3) (K1 & K2 & K3).
  repeat split; congruence.
Qed.

Section Frames.

Variable env : Env.

Lemma with_call_quiet (c : NetCall) (w : World) :
  refresh_exchanges [c] = 0%nat -> quiet w (with_call c w).
Proof.
  intros Hc. unfold quiet, with_call; cbn [connections clockReads calls].
  rewrite refresh_exchanges_app, Hc. repeat split. lia.
Qed.

Lemma log_quiet (l : LogLevel) (msg : string) (err : option JsError) :
  preserves quiet (log l msg err).
Proof. intros w. repeat split. Qed.

Lemma upsert_quiet (n : string) (u c : IntegrationData) :
  preserves quiet (mcpIntegration_upsert n u c).
Proof.
  intros w. unfold mcpIntegration_upsert. unfold_m. simpl.
  destruct (find (named n) (integrations w)); simpl; repeat split.
Qed.

Lemma protectedResource_quiet (url : string) :
  preserves quiet (discoverOAuthProtectedResourceMetadata env url).
Proof.
  intros w. unfold discoverOAuthProtectedResourceMetadata. unfold_m. simpl.
  destruct (sdk_protectedResource env (calls w) url); simpl;
    now apply with_call_quiet.
Qed.

Lemma authServer_quiet (url : string) :
  preserves quiet (discoverAuthorizationServerMetadata env url).
Proof.
  intros w. unfold discoverAuthorizationServerMetadata. unfold_m. simpl.
  destruct (sdk_authServer env (calls w) url); simpl;
    now apply with_call_quiet.
Qed.

Lemma registerClient_quiet (ep : string) (md : AuthorizationServerMetadata)
  (cm : OAuthClientMetadata) :
  preserves quiet (registerClient env ep md cm).
Proof.
  intros w. unfold registerClient. unfold_m. simpl.
  destruct (sdk_register env (calls w) ep md cm); simpl;
    now apply with_call_quiet.
Qed.

Ltac quiet_base :=
  first [ apply log_quiet | apply upsert_quiet | apply protectedResource_quiet
        | apply authServer_quiet | apply registerClient_quiet ].

Lemma discoverMetadata_quiet (su i : string) :
  preserves quiet (discoverMetadata env su i).
Proof.
  unfold discoverMetadata, upsertMcpIntegration.
  preserve_with quiet_refl quiet_trans quiet_base.
Qed.

Lemma getOAuthClient_quiet (i : string) (redirect : option string) :
  preserves quiet (getOAuthClient env i redirect).
Proof.
  unfold getOAuthClient, upsertMcpIntegration.
  preserve_with quiet_refl quiet_trans
    ltac:(first [quiet_base | apply discoverMetadata_quiet]).
Qed.

End Frames.

(** ** The access-token provider *)

Section Provider.

Variable env : Env.

Lemma truthy_val_intro (s : string) : s <> "" -> truthy_val (Some s) = Some s.
Proof. intros H. apply truthy_val_some. now split. Qed.

Lemma truthyO_true (s : string) : s <> "" -> Js.truthyO (Some s) = true.
Proof.
  intros H. unfold Js.truthyO, Js.truthy.
  destruct (String.eqb_spec s ""); [contradiction | reflexivity].
Qed.

Lemma truthyO_false (o : option string) :
  o = None \/ o = Some "" -> Js.truthyO o = false.
Proof. intros [-> | ->]; reflexivity. Qed.

(** The three outcomes once a connection with an access token is found. *)
Lemma getValidAccessToken_found (i a : string) (w : World)
  (c : McpConnection) (tok : string) :
  connection_of w a i = Some c ->
  accessToken c = Some tok -> tok <> "" ->
  getValidAccessToken env i a w =
  let now := clock env (clockReads w) in
  let isExpired := match expiresAt c with
                   | Some t => t <? now
                   | None => false
                   end in
  if isExpired && Js.truthyO (refreshToken c) then
    match refreshOAuthTokens env i a (with_log refreshing (tick w)) with
    | (inl e, w') => (inl e, w')
    | (inr tokens, w') => (inr (access_token tokens), w')
    end
  else if isExpired then (inl (MkError (reconnect_required i)), tick w)
  else (inr tok, tick w).
Proof.
  intros Hc Ha Htok. unfold connection_of in Hc.
  unfold getValidAccessToken, mcpConnection_findFirst, Date_now.
  unfold bind at 1. rewrite Hc. cbn [opt_field]. rewrite Ha.
  rewrite (truthy_val_intro tok Htok). unfold bind at 1. cbv zeta.
  destruct (match expiresAt c with Some t => t <? clock env (clockReads w)
                              | None => false end); cbn [andb];
    [destruct (Js.truthyO (refreshToken c))|]; reflexivity.
Qed.

Lemma getValidAccessToken_missing (i a : string) (w : World) :
  truthy_val (opt_field (connection_of w a i) accessToken) = None ->
  getValidAccessToken env i a w = (inl (MkError (no_access_token i)), w).
Proof.
  intros H. unfold connection_of in H.
  unfold getValidAccessToken, mcpConnection_findFirst.
  unfold bind at 1.
  destruct (find _ (connections w)) as [c|]; [|reflexivity].
  rewrite H. reflexivity.
Qed.

End Provider.

(** ** Refresh *)

Section Refresh.

Variable env : Env.

(** The instant and the lifetime [calculateTokenExpiration] works with. *)
Lemma calculateTokenExpiration_run (expiresIn : option Z) (w : World) :
  exists w',
    calculateTokenExpiration env expiresIn w
    = (inr (clock env (clockReads w)
            + match truthy_num expiresIn with
              | Some seconds => seconds * 1000
              | None => DEFAULT_TOKEN_EXPIRY_MS
              end), w') /\
    connections w' = connections w /\ integrations w' = integrations w /\
    calls w' = calls w /\ clockReads w' = S (clockReads w).
Proof.
  unfold calculateTokenExpiration.
  destruct (truthy_num expiresIn) as [n|]; eexists; split;
    try reflexivity; repeat split.
Qed.

(** A refresh that returns went through exactly one refresh-token exchange,
    made with the stored refresh token, and wrote its answer to the row it
    had read. *)
Lemma refreshOAuthTokens_inv (i a : string) (w w' : World) (tokens : OAuthTokens) :
  refreshOAuthTokens env i a w = (inr tokens, w') ->
  exists c rt w1 md ci res,
    connection_of w a i = Some c /\
    truthy_val (refreshToken c) = Some rt /\
    quiet w w1 /\
    sdk_refresh env (calls w1) (token_endpoint md) md ci rt res = inr tokens /\
    calls w' = (calls w1 ++ [RefreshExchange (token_endpoint md) rt res])%list /\
    connections w' =
      update_first (identified (mc_id c) a)
        (update_connection
           {| cd_accessToken := Some (access_token tokens);
              cd_refreshToken :=
                Js.or_else (refresh_token tokens) (refreshToken c);
              cd_expiresAt :=
                Some (clock env (clockReads w)
                      + match truthy_num (expires_in tokens) with
                        | Some seconds => seconds * 1000
                        | None => DEFAULT_TOKEN_EXPIRY_MS
                        end);
              cd_isActive := None |})
        (connections w).
Proof.
  unfold refreshOAuthTokens. intros H.
  unfold bind at 1 in H. unfold lift at 1 in H.
  destruct (getIntegration env i) as [e|cfg]; [discriminate|].
  destruct (truthy_val (serverUrl cfg)) as [url|]; [|discriminate].
  unfold bind at 1 in H. unfold mcpConnection_findFirst at 1 in H.
  fold (connection_of w a i) in H.
  destruct (connection_of w a i) as [c|] eqn:Hc; [|discriminate].
  cbn [opt_field] in H.
  destruct (truthy_val (refreshToken c)) as [rt|] eqn:Hrt; [|discriminate].
  unfold bind at 1 in H.
  pose proof (getOAuthClient_quiet env i None w) as Q1.
  destruct (getOAuthClient env i None w) as [[e|ci] wa]; [discriminate|].
  cbn [snd] in Q1.
  unfold bind at 1 in H. unfold getMetadataForIntegration in H.
  pose proof (discoverMetadata_quiet env (getOAuthServerUrl cfg) i wa) as Q2.
  destruct (discoverMetadata env (getOAuthServerUrl cfg) i wa) as [[e|md] wb];
    [discriminate|].
  cbn [snd] in Q2.
  pose proof (quiet_trans _ _ _ Q1 Q2) as Q.
  unfold bind at 1 in H. unfold lift at 1 in H.
  destruct (newURL env url) as [e|res]; [discriminate|].
  unfold bind at 1 in H. unfold refreshAuthorization in H.
  unfold bind at 1 in H. unfold get_world at 1 in H.
  unfold bind at 1 in H. unfold record_call at 1 in H. unfold lift at 1 in H.
  destruct (sdk_refresh env (calls wb) (token_endpoint md) md ci rt res)
    as [e|tk] eqn:Hsdk; [discriminate|].
  unfold bind at 1 in H.
  destruct (calculateTokenExpiration_run (expires_in tk)
              (with_call (RefreshExchange (token_endpoint md) rt res) wb))
    as (wc & Hcalc & Kc & Ki & Kcalls & Kclock).
  rewrite Hcalc in H.
  destruct Q as (Qc & Qk & Qr).
  cbn [clockReads with_call] in H. rewrite Qk in H.
  unfold bind at 1 in H. unfold mcpConnection_update in H.
  unfold bind at 1 in H. unfold get_world at 1 in H.
  cbn [connections with_call] in Kc. rewrite Qc in Kc. rewrite Kc in H.
  assert (Hid : exists c0, find (identified (mc_id c) a) (connections w) = Some c0).
  { unfold connection_of in Hc. apply find_some in Hc as [Hin Hp].
    destruct (find (identified (mc_id c) a) (connections w)) as [c0|] eqn:Hf;
      [now exists c0|].
    exfalso. pose proof (find_none _ _ Hf c Hin) as Hn.
    unfold identified in Hn. rewrite Nat.eqb_refl in Hn.
    unfold active_connection_of in Hp.
    apply andb_prop in Hp as [Hp _]. apply andb_prop in Hp as [Hp _].
    rewrite Hp in Hn. discriminate. }
  destruct Hid as [c0 Hc0]. rewrite Hc0 in H.
  unfold_m. cbn in H. inversion H; subst tk w'; clear H.
  exists c, rt, wb, md, ci, res.
  cbn [calls connections]. rewrite Kcalls. cbn [calls with_call].
  repeat split; try assumption; try reflexivity.
Qed.

Lemma same_calls_refl (w : World) : same_calls w w.
Proof. reflexivity. Qed.

Lemma same_calls_trans (x y z : World) :
  same_calls x y -> same_calls y z -> same_calls x z.
Proof. unfold same_calls. congruence. Qed.

Lemma log_same_calls (l : LogLevel) (msg : string) (err : option JsError) :
  preserves same_calls (log l msg err).
Proof. intros w. reflexivity. Qed.

Lemma calculateTokenExpiration_same_calls (expiresIn : option Z) :
  preserves same_calls (calculateTokenExpiration env expiresIn).
Proof.
  intros w.
  destruct (calculateTokenExpiration_run expiresIn w) as (w' & -> & _ & _ & H & _).
  exact H.
Qed.

Lemma connection_update_same_calls (id : nat) (a : string) (d : ConnectionData) :
  preserves same_calls (mcpConnection_update id a d).
Proof.
  intros w. unfold mcpConnection_update. unfold_m.
  destruct (find (identified id a) (connections w)); reflexivity.
Qed.

(** Whatever its outcome, a refresh makes at most one refresh-token
    exchange. *)
Lemma refreshOAuthTokens_at_most_once (i a : string) (w : World) :
  (refresh_exchanges (calls (snd (refreshOAuthTokens env i a w)))
   <= S (refresh_exchanges (calls w)))%nat.
Proof.
  unfold refreshOAuthTokens.
  unfold bind at 1. unfold lift at 1.
  destruct (getIntegration env i) as [e|cfg]; [cbn; lia|].
  destruct (truthy_val (serverUrl cfg)) as [url|]; [|cbn; lia].
  unfold bind at 1. unfold mcpConnection_findFirst at 1.
  destruct (find _ (connections w)) as [c|]; [|cbn; lia].
  cbn [opt_field].
  destruct (truthy_val (refreshToken c)) as [rt|]; [|cbn; lia].
  unfold bind at 1.
  pose proof (getOAuthClient_quiet env i None w) as Q1.
  destruct (getOAuthClient env i None w) as [[e|ci] wa];
    cbn [snd] in Q1; destruct Q1 as (_ & _ & Q1); [cbn; lia|].
  unfold bind at 1. unfold getMetadataForIntegration.
  pose proof (discoverMetadata_quiet env (getOAuthServerUrl cfg) i wa) as Q2.
  destruct (discoverMetadata env (getOAuthServerUrl cfg) i wa) as [[e|md] wb];
    cbn [snd] in Q2; destruct Q2 as (_ & _ & Q2); [cbn; lia|].
  unfold bind at 1. unfold lift at 1.
  destruct (newURL env url) as [e|res]; [cbn; lia|].
  unfold bind at 1. unfold refreshAuthorization.
  unfold bind at 1. unfold get_world at 1.
  unfold bind at 1. unfold record_call at 1. unfold lift at 1.
  assert (Hcall : refresh_exchanges
                    (calls (with_call (RefreshExchange (token_endpoint md) rt res) wb))
                  = S (refresh_exchanges (calls w))).
  { cbn [calls with_call]. rewrite refresh_exchanges_app. cbn. lia. }
  destruct (sdk_refresh env (calls wb) (token_endpoint md) md ci rt res)
    as [e|tk]; [cbn [snd]; lia|].
  match goal with
  | |- context [snd (?m ?w0)] =>
      assert (P : preserves same_calls m)
  end.
  { preserve_with same_calls_refl same_calls_trans
      ltac:(first [ apply log_same_calls
                  | apply calculateTokenExpiration_same_calls
                  | apply connection_update_same_calls ]). }
  rewrite (P _). lia.
Qed.

End Refresh.

(** ** Token validity *)

(** C1 as the code has it.  The state machine of [getValidAccessToken]
    over the connection row it reads, which is the active row of the account
    and integration.  Without such a row (none at all, or only deactivated
    ones) or without an access token on it, it fails with the not-connected
    error.  With an access token: when [expiresAt] is null or later than the
    clock, the stored token is returned and the world is untouched but for
    the clock reading; when [expiresAt] is earlier than the clock and a
    refresh token is stored, the outcome is that of [refreshOAuthTokens],
    which makes at most one refresh-token exchange and, when it returns, made
    exactly one, with the stored refresh token, whose answer's access token
    is the result; when [expiresAt] is earlier than the clock and no refresh
    token is stored, it fails with the reconnect-required error. *)
Theorem getValidAccessToken_state_machine (env : Env)
  (integration account : string) (w : World) :
  let found := connection_of w account integration in
  let now := clock env (clockReads w) in
  let run := getValidAccessToken env integration account w in
  ((found = None \/
    exists c, found = Some c /\ (accessToken c = None \/ accessToken c = Some "")) ->
   run = (inl (MkError (no_access_token integration)), w)) /\
  ((forall c, In c (connections w) -> isActive c = false) ->
   run = (inl (MkError (no_access_token integration)), w)) /\
  (forall c tok,
     found = Some c -> accessToken c = Some tok -> tok <> "" ->
     ((expiresAt c = None \/ exists t, expiresAt c = Some t /\ now < t) ->
      run = (inr tok, tick w)) /\
     (forall t, expiresAt c = Some t -> t < now ->
        (forall rt, refreshToken c = Some rt -> rt <> "" ->
           run = (let (r, w') := refreshOAuthTokens env integration account
                                   (with_log refreshing (tick w)) in
                  (match r with
                   | inl e => inl e
                   | inr tokens => inr (access_token tokens)
                   end, w')) /\
           (refresh_exchanges (calls (snd run))
            <= S (refresh_exchanges (calls w)))%nat /\
           (forall tok', fst run = inr tok' ->
              refresh_exchanges (calls (snd run))
              = S (refresh_exchanges (calls w)) /\
              exists history md client resource tokens,
                sdk_refresh env history (token_endpoint md) md client rt resource
                = inr tokens /\
                In (RefreshExchange (token_endpoint md) rt resource)
                   (calls (snd run)) /\
                tok' = access_token tokens)) /\
        ((refreshToken c = None \/ refreshToken c = Some "") ->
         run = (inl (MkError (reconnect_required integration)), tick w)))).
Proof.
  intros found now run. subst found now run. split; [|split].
  - intros H. apply getValidAccessToken_missing.
    destruct H as [-> | (c & -> & H)]; [reflexivity|].
    cbn [opt_field]. now apply truthy_val_none.
  - intros Hoff. apply getValidAccessToken_missing.
    destruct (connection_of w account integration) as [c|] eqn:Hc;
      [|reflexivity].
    exfalso. unfold connection_of in Hc. apply find_some in Hc as [Hin Hp].
    unfold active_connection_of in Hp. apply andb_prop in Hp as [_ Hp].
    rewrite (Hoff c Hin) in Hp. discriminate.
  - intros c tok Hc Ha Htok.
    pose proof (getValidAccessToken_found env integration account w c tok
                  Hc Ha Htok) as E.
    cbv zeta in E. split.
    + intros Hexp. rewrite E.
      destruct Hexp as [-> | (t & -> & Ht)]; [reflexivity|].
      replace (t <? clock env (clockReads w)) with false
        by (symmetry; apply Z.ltb_ge; lia).
      reflexivity.
    + intros t Hexp Ht. rewrite Hexp in E.
      replace (t <? clock env (clockReads w)) with true in E
        by (symmetry; apply Z.ltb_lt; lia).
      split.
      * intros rt Hrt Hne. rewrite Hrt, (truthyO_true rt Hne) in E.
        cbn [andb] in E.
        set (w0 := with_log refreshing (tick w)) in *.
        assert (Hw0 : refresh_exchanges (calls w0) = refresh_exchanges (calls w))
          by reflexivity.
        pose proof (refreshOAuthTokens_at_most_once env integration account w0)
          as Hmost.
        pose proof (refreshOAuthTokens_inv env integration account w0) as Hinv.
        assert (Hc0 : connection_of w0 account integration = Some c) by exact Hc.
        destruct (refreshOAuthTokens env integration account w0)
          as [[e|tokens] w'] eqn:Hr; rewrite E; cbn [fst snd] in *.
        -- split; [reflexivity|]. split; [lia|]. intros tok' Hk. discriminate.
        -- split; [reflexivity|]. split; [lia|]. intros tok' Hk.
           inversion Hk; subst tok'; clear Hk.
           destruct (Hinv w' tokens eq_refl)
             as (c1 & rt1 & w1 & md & ci & res & K1 & K2 & K3 & K4 & K5 & _).
           rewrite Hc0 in K1. inversion K1; subst c1; clear K1.
           rewrite Hrt, (truthy_val_intro rt Hne) in K2.
           inversion K2; subst rt1; clear K2.
           destruct K3 as (_ & _ & K3).
           split.
           ++ rewrite K5, refresh_exchanges_app. cbn. lia.
           ++ exists (calls w1), md, ci, res, tokens.
              split; [exact K4|]. split; [|reflexivity].
              rewrite K5. apply in_or_app. right. left. reflexivity.
      * intros Hrt. rewrite (truthyO_false _ Hrt) in E. exact E.
Qed.

(** C10.  A connection whose [expiresAt] equals the clock reading is not
    expired: the stored access token is returned, and nothing but the clock
    reading happens (no refresh, no call, no write). *)
Theorem getValidAccessToken_expiry_is_strict (env : Env)
  (integration account : string) (w : World) (c : McpConnection) (tok : string) :
  connection_of w account integration = Some c ->
  accessToken c = Some tok -> tok <> "" ->
  expiresAt c = Some (clock env (clockReads w)) ->
  getValidAccessToken env integration account w = (inr tok, tick w).
Proof.
  intros Hc Ha Htok Hexp.
  rewrite (getValidAccessToken_found env integration account w c tok Hc Ha Htok).
  cbv zeta. rewrite Hexp, Z.ltb_irrefl. reflexivity.
Qed.

Lemma getValidAccessToken_state_machine_witness :
  getValidAccessToken provider "acme" "acct-1" empty_store
  = (inl (MkError (no_access_token "acme")), empty_store) /\
  getValidAccessToken provider "acme" "acct-1" deactivated_store
  = (inl (MkError (no_access_token "acme")), deactivated_store) /\
  getValidAccessToken provider "acme" "acct-1"
    (store (Some 1700000060000) (Some "rt-old"))
  = (inr "at-old", tick (store (Some 1700000060000) (Some "rt-old"))) /\
  refresh_exchanges
    (calls (snd (getValidAccessToken provider "acme" "acct-1"
                   (store (Some 1699999999999) (Some "rt-old"))))) = 1%nat /\
  getValidAccessToken provider "acme" "acct-1" (store (Some 1699999999999) None)
  = (inl (MkError (reconnect_required "acme")),
     tick (store (Some 1699999999999) None)).
Proof.
  split; [|split; [|split; [|split]]].
  - exact (proj1 (getValidAccessToken_state_machine provider "acme" "acct-1"
                    empty_store) (or_introl eq_refl)).
  - refine (proj1 (proj2 (getValidAccessToken_state_machine provider "acme"
                            "acct-1" deactivated_store)) _).
    intros c [<- | []]. reflexivity.
  - refine (proj1 (proj2 (proj2 (getValidAccessToken_state_machine provider
              "acme" "acct-1" (store (Some 1700000060000) (Some "rt-old"))))
                         _ "at-old" eq_refl eq_refl _) _).
    + discriminate.
    + right. exists 1700000060000. split; reflexivity.
  - refine (proj1 (proj2 (proj2 (proj1 (proj2 (proj2 (proj2
              (getValidAccessToken_state_machine provider "acme" "acct-1"
                 (store (Some 1699999999999) (Some "rt-old"))))
              _ "at-old" eq_refl eq_refl _) 1699999999999 eq_refl _)
              "rt-old" eq_refl _)) "at-new" eq_refl)).
    + discriminate.
    + reflexivity.
    + discriminate.
  - refine (proj2 (proj2 (proj2 (proj2 (getValidAccessToken_state_machine
              provider "acme" "acct-1" (store (Some 1699999999999) None)))
              _ "at-old" eq_refl eq_refl _) 1699999999999 eq_refl _)
              (or_introl eq_refl)).
    + discriminate.
    + reflexivity.
Defined.

(** C1 as stated fails.  A persisted connection that was deactivated is
    not read: its unexpired access token is not returned.  And an expired
    connection with a refresh token yields no access token when the token
    endpoint rejects the grant: the error of the exchange is the outcome. *)
Lemma deactivated_or_rejected_connection_gets_no_token :
  (exists c,
     connections deactivated_store = [c] /\
     emailAccountId c = "acct-1" /\ mc_name c = "acme" /\
     accessToken c = Some "at-old" /\ expiresAt c = None /\
     fst (getValidAccessToken provider "acme" "acct-1" deactivated_store)
     = inl (MkError (no_access_token "acme"))) /\
  (let w := store (Some 1699999999999) (Some "rt-old") in
   let run := getValidAccessToken rejecting "acme" "acct-1" w in
   fst run = inl (MkError "invalid_grant") /\
   refresh_exchanges (calls (snd run)) = 1%nat).
Proof.
  split.
  - eexists. split; [reflexivity|]. repeat split.
  - cbv zeta. split; vm_compute; reflexivity.
Qed.

Lemma getValidAccessToken_expiry_is_strict_witness :
  getValidAccessToken provider "acme" "acct-1"
    (store (Some 1700000000000) (Some "rt-old"))
  = (inr "at-old", tick (store (Some 1700000000000) (Some "rt-old"))).
Proof.
  refine (getValidAccessToken_expiry_is_strict provider "acme" "acct-1"
            (store (Some 1700000000000) (Some "rt-old")) _ "at-old"
            eq_refl eq_refl _ eq_refl).
  discriminate.
Defined.

(** ** Client credentials *)

(** C6.  When neither static nor stored client credentials exist,
    [getOAuthClient] without a server URL or without a redirect URI fails
    with the matching configuration error and leaves the world as it was:
    no discovery, no registration request, no write. *)
Theorem getOAuthClient_needs_redirect_uri (env : Env) (integration : string)
  (redirectUri : option string) (w : World) (cfg : IntegrationConfig) :
  getIntegration env integration = inr cfg ->
  truthy_val (opt_field (getStaticCredentials env integration) clientId) = None ->
  truthy_val (opt_field (find (named integration) (integrations w)) oauthClientId)
  = None ->
  (truthy_val (serverUrl cfg) = None ->
   getOAuthClient env integration redirectUri w
   = (inl (MkError (no_server_url integration)), w)) /\
  (truthy_val (serverUrl cfg) <> None -> truthy_val redirectUri = None ->
   getOAuthClient env integration redirectUri w
   = (inl (MkError (redirect_uri_required integration)), w)).
Proof.
  intros Hcfg Hstatic Hstored.
  unfold getOAuthClient, mcpIntegration_findUnique. unfold_m.
  rewrite Hcfg. cbv beta iota zeta. rewrite Hstatic.
  cbv beta iota zeta. rewrite Hstored.
  split.
  - intros ->. reflexivity.
  - intros Hs ->. destruct (truthy_val (serverUrl cfg)); [reflexivity|].
    now contradiction Hs.
Qed.

Lemma getOAuthClient_needs_redirect_uri_witness :
  getOAuthClient provider "plain" None empty_store
  = (inl (MkError (redirect_uri_required "plain")), empty_store).
Proof.
  refine (proj2 (getOAuthClient_needs_redirect_uri provider "plain" None
                   empty_store plain eq_refl eq_refl eq_refl) _ eq_refl).
  discriminate.
Defined.

(** ** Expiry *)

(** A lifetime other than zero is added, in milliseconds, to the clock
    reading; with no lifetime the default of one hour is. *)
Lemma calculateTokenExpiration_spec (env : Env) (w : World) :
  (forall seconds, seconds <> 0 ->
     fst (calculateTokenExpiration env (Some seconds) w)
     = inr (clock env (clockReads w) + seconds * 1000)) /\
  fst (calculateTokenExpiration env None w)
  = inr (clock env (clockReads w) + 3600000).
Proof.
  split; [|reflexivity].
  intros seconds Hs. unfold calculateTokenExpiration, truthy_num, Js.truthyN.
  destruct (Z.eqb_spec seconds 0); [contradiction | reflexivity].
Qed.

(** C4, at [expires_in = 0].  A token response that carries a lifetime of
    zero seconds is treated as if it carried none: the expiry is the clock
    reading plus one hour, not the clock reading, and the log says that the
    provider returned no [expires_in]; a code exchange answered with that
    lifetime persists the clock reading plus one hour. *)
Theorem calculateTokenExpiration_zero_lifetime :
  (forall (env : Env) (w : World),
     let run := calculateTokenExpiration env (Some 0) w in
     fst run = inr (clock env (clockReads w) + 3600000) /\
     fst run <> inr (clock env (clockReads w) + 0 * 1000) /\
     logs (snd run)
     = (logs w ++
        [{| level := LvWarn;
            text :=
              "OAuth provider did not return expires_in, using default expiry";
            logged_error := None |}])%list) /\
  map expiresAt
    (connections
       (snd (handleOAuthCallback zero_lifetime "acme" "code" "verifier"
               "https://app.example/callback" "acct-1" empty_store)))
  = [Some (1700000000000 + 3600000)].
Proof.
  split.
  - intros env w. cbv zeta. split; [reflexivity|]. split; [|reflexivity].
    cbn. intros H. inversion H. lia.
  - vm_compute. reflexivity.
Qed.

(** ** The tables *)

Section Tables.

Context {A : Type}.

Lemma find_update_first_hit (p : A -> bool) (f : A -> A) (l : list A) (r : A) :
  find p l = Some r -> p (f r) = true ->
  find p (update_first p f l) = Some (f r).
Proof.
  induction l as [|x rest IH]; cbn; [discriminate|].
  destruct (p x) eqn:Hx; intros H Hf.
  - inversion H; subst x. cbn. now rewrite Hf.
  - cbn. rewrite Hx. now apply IH.
Qed.

(** A column [g] read through a filter [q] sees an update only if the
    update changes [g] or the verdict of [q]. *)
Lemma find_update_first_frame {B} (p q : A -> bool) (f : A -> A)
  (g : A -> option B) (l : list A) :
  (forall x, q (f x) = q x) -> (forall x, g (f x) = g x) ->
  opt_field (find q (update_first p f l)) g = opt_field (find q l) g.
Proof.
  intros Hq Hg. induction l as [|x rest IH]; cbn; [reflexivity|].
  destruct (p x); cbn.
  - rewrite Hq. destruct (q x); cbn; [apply Hg | reflexivity].
  - destruct (q x); cbn; [reflexivity | exact IH].
Qed.

Lemma find_update_first_other (p q : A -> bool) (f : A -> A) (l : list A) :
  (forall x, p x = true -> q x = false /\ q (f x) = false) ->
  find q (update_first p f l) = find q l.
Proof.
  intros H. induction l as [|x rest IH]; cbn; [reflexivity|].
  destruct (p x) eqn:Hx; cbn.
  - destruct (H x Hx) as [-> ->]. reflexivity.
  - destruct (q x); [reflexivity | exact IH].
Qed.

Lemma find_snoc (p : A -> bool) (l : list A) (r : A) :
  find p (l ++ [r])
  = match find p l with
    | Some x => Some x
    | None => if p r then Some r else None
    end.
Proof.
  induction l as [|x rest IH]; cbn; [reflexivity|].
  destruct (p x); [reflexivity | exact IH].
Qed.

End Tables.

Lemma strict_eq_spec (a b : option string) : strict_eq a b = true <-> a = b.
Proof.
  destruct a as [x|], b as [y|]; cbn; split; intros H;
    try discriminate; try reflexivity.
  - apply String.eqb_eq in H. now subst.
  - inversion H. apply String.eqb_refl.
Qed.

Lemma named_update (n : string) (d : IntegrationData) (r : McpIntegration) :
  named n (update_integration d r) = named n r.
Proof. reflexivity. Qed.

(** The row an upsert returns is the row a lookup by name finds next. *)
Lemma upsert_lookup (n : string) (u c : IntegrationData) (w : World) :
  exists r w',
    mcpIntegration_upsert n u c w = (inr r, w') /\
    find (named n) (integrations w') = Some r /\
    r = match find (named n) (integrations w) with
        | Some old => update_integration u old
        | None => create_integration (nextId w) n c
        end /\
    connections w' = connections w /\ calls w' = calls w /\
    clockReads w' = clockReads w /\ logs w' = logs w.
Proof.
  unfold mcpIntegration_upsert. unfold_m.
  destruct (find (named n) (integrations w)) as [old|] eqn:Hf; cbn.
  - eexists _, _. split; [reflexivity|]. cbn. repeat split.
    apply find_update_first_hit; [exact Hf|].
    rewrite named_update. now apply find_some in Hf.
  - eexists _, _. split; [reflexivity|]. cbn. repeat split.
    rewrite find_snoc, Hf. unfold named at 1. cbn.
    now rewrite String.eqb_refl.
Qed.

(** ** The discovery cache *)

Lemma same_credentials_refl (w : World) : same_credentials w w.
Proof. intros n. reflexivity. Qed.

Lemma same_credentials_trans (x y z : World) :
  same_credentials x y -> same_credentials y z -> same_credentials x z.
Proof. intros H K n. now rewrite K, H. Qed.

Lemma upsert_same_credentials (n : string) (d : IntegrationData) :
  d_oauthClientId d = None -> d_oauthClientSecret d = None ->
  preserves same_credentials (upsertMcpIntegration n d).
Proof.
  intros Hid Hsecret w n'.
  unfold upsertMcpIntegration, mcpIntegration_upsert. unfold_m.
  unfold stored_credentials.
  destruct (find (named n) (integrations w)) as [old|] eqn:Hf; cbn.
  - rewrite !find_update_first_frame; try reflexivity.
    + intros x. cbn. now rewrite Hsecret.
    + intros x. cbn. now rewrite Hid.
  - rewrite find_snoc.
    destruct (find (named n') (integrations w)); [reflexivity|].
    destruct (named n' _); cbn; [|reflexivity].
    now rewrite Hid, Hsecret.
Qed.

Section CacheFrame.

Variable env : Env.

Lemma log_same_credentials (l : LogLevel) (msg : string) (err : option JsError) :
  preserves same_credentials (log l msg err).
Proof. intros w n. reflexivity. Qed.

Lemma protectedResource_same_credentials (url : string) :
  preserves same_credentials (discoverOAuthProtectedResourceMetadata env url).
Proof.
  intros w n. unfold discoverOAuthProtectedResourceMetadata. unfold_m.
  destruct (sdk_protectedResource env (calls w) url); reflexivity.
Qed.

Lemma authServer_same_credentials (url : string) :
  preserves same_credentials (discoverAuthorizationServerMetadata env url).
Proof.
  intros w n. unfold discoverAuthorizationServerMetadata. unfold_m.
  destruct (sdk_authServer env (calls w) url); reflexivity.
Qed.

Lemma discoverMetadata_same_credentials (su i : string) :
  preserves same_credentials (discoverMetadata env su i).
Proof.
  unfold discoverMetadata.
  preserve_with same_credentials_refl same_credentials_trans
    ltac:(first [ apply log_same_credentials
                | apply protectedResource_same_credentials
                | apply authServer_same_credentials
                | apply upsert_same_credentials; reflexivity ]).
Qed.

End CacheFrame.

(** C8.  A discovery cache write replaces, on the row of that name, the
    three discovery columns and nothing else; rows of other names are not
    touched; and over a whole run of [discoverMetadata], whichever way it
    ends, the client credentials stored under every name are the same
    before and after. *)
Theorem discovery_cache_write_keeps_credentials :
  (forall (integration : string) (metadata : AuthorizationServerMetadata)
          (serverUrl : string) (w : World) (r : McpIntegration),
     find (named integration) (integrations w) = Some r ->
     let w' := snd (upsertMcpIntegration integration
                      (discovery_cache metadata serverUrl) w) in
     find (named integration) (integrations w')
     = Some {| mi_id := mi_id r;
               mi_name := mi_name r;
               registeredAuthorizationUrl :=
                 Some (authorization_endpoint metadata);
               registeredTokenUrl := Some (token_endpoint metadata);
               registeredServerUrl := Some serverUrl;
               oauthClientId := oauthClientId r;
               oauthClientSecret := oauthClientSecret r |} /\
     (forall other, other <> integration ->
        find (named other) (integrations w')
        = find (named other) (integrations w)) /\
     connections w' = connections w) /\
  (forall (env : Env) (serverUrl integration : string) (w : World),
     same_credentials w (snd (discoverMetadata env serverUrl integration w))).
Proof.
  split.
  - intros integration metadata su w r Hr. cbv zeta.
    unfold upsertMcpIntegration, mcpIntegration_upsert. unfold_m.
    rewrite Hr. cbn. split; [|split; [|reflexivity]].
    + rewrite (find_update_first_hit _ _ _ r Hr); [reflexivity|].
      rewrite named_update. now apply find_some in Hr.
    + intros other Hother. apply find_update_first_other.
      intros x Hx. unfold named in *. cbn.
      apply String.eqb_eq in Hx. rewrite Hx.
      split; apply String.eqb_neq; congruence.
  - intros env su i w. apply discoverMetadata_same_credentials.
Qed.

Lemma discovery_cache_write_keeps_credentials_witness :
  stored_credentials
    (snd (upsertMcpIntegration "acme"
            (discovery_cache acme_metadata "https://mcp.acme.com")
            (store None None))) "acme"
  = (Some "dyn-client", None).
Proof.
  unfold stored_credentials.
  rewrite (proj1 (proj1 discovery_cache_write_keeps_credentials
                    "acme" acme_metadata "https://mcp.acme.com"
                    (store None None) acme_row eq_refl)).
  reflexivity.
Defined.

(** ** Discovery *)

Section Discovery.

Variable env : Env.

(** A valid cache answers without a network call. *)
Lemma discoverMetadata_hit (su i : string) (w : World) (cfg : IntegrationConfig)
  (a t : string) :
  getIntegration env i = inr cfg ->
  cached w i = Some (Some a, Some t, Some su) -> a <> "" -> t <> "" ->
  discoverMetadata env su i w
  = (inr (createAuthServerMetadata su a t None), with_log using_cache w).
Proof.
  intros Hcfg Hc Ha Ht. unfold cached in Hc.
  destruct (find (named i) (integrations w)) as [r|] eqn:Hr; [|discriminate].
  cbn in Hc. inversion Hc as [[H1 H2 H3]].
  unfold discoverMetadata, mcpIntegration_findUnique. unfold_m.
  rewrite Hcfg. cbv beta iota zeta. rewrite Hr.
  unfold cached_endpoints. rewrite H1, H2, H3.
  rewrite (truthy_val_intro a Ha), (truthy_val_intro t Ht).
  replace (strict_eq (Some su) (Some su)) with true
    by (symmetry; now apply strict_eq_spec).
  reflexivity.
Qed.

Lemma cached_after_upsert (i : string) (md : AuthorizationServerMetadata)
  (su : string) (w : World) :
  exists r w',
    upsertMcpIntegration i (discovery_cache md su) w = (inr r, w') /\
    cached w' i
    = Some (Some (authorization_endpoint md), Some (token_endpoint md), Some su) /\
    connections w' = connections w /\ calls w' = calls w /\ logs w' = logs w.
Proof.
  unfold upsertMcpIntegration.
  destruct (upsert_lookup i (discovery_cache md su) (discovery_cache md su) w)
    as (r & w' & E & Hf & Hr & Hc & Hcalls & _ & Hlogs).
  exists r, w'. split; [exact E|]. repeat split; try assumption.
  unfold cached. rewrite Hf. subst r.
  destruct (find (named i) (integrations w)); reflexivity.
Qed.

(** Live discovery: the two lookups it makes and how it ends. *)
Lemma discoverMetadata_live (su i : string) (w : World) (cfg : IntegrationConfig) :
  getIntegration env i = inr cfg ->
  cached_endpoints (find (named i) (integrations w)) su = None ->
  let run := discoverMetadata env su i w in
  calls (snd run)
  = (calls w ++ [ProtectedResourceLookup su;
                 AuthServerLookup (resolved_auth_server env w su)])%list /\
  connections (snd run) = connections w /\
  match lookup_failure (live_answer env w su) with
  | None =>
      exists md, live_answer env w su = inr (Some md) /\
                 fst run = inr md /\
                 cached (snd run) i
                 = Some (Some (authorization_endpoint md),
                         Some (token_endpoint md), Some su)
  | Some cause =>
      match oauthConfig cfg with
      | Some oc =>
          fst run = inr (fallback_metadata su oc) /\
          cached (snd run) i
          = Some (Some (oc_authorization_endpoint oc),
                  Some (oc_token_endpoint oc), Some su)
      | None =>
          fst run = inl (MkError (discovery_failed i)) /\
          integrations (snd run) = integrations w /\
          exists earlier, logs (snd run) = (earlier ++ [no_fallback cause])%list
      end
  end.
Proof.
  intros Hcfg Hmiss. cbv zeta.
  unfold live_answer, resolved_auth_server.
  unfold discoverMetadata, mcpIntegration_findUnique,
    discoverOAuthProtectedResourceMetadata, discoverAuthorizationServerMetadata.
  unfold_m. rewrite Hcfg. cbv beta iota zeta. rewrite Hmiss.
  cbn [calls with_log with_call].
  destruct (sdk_protectedResource env (calls w) su) as [e|rm];
    [|destruct (first_authorization_server rm) as [u|]];
    cbn [assign calls with_log with_call];
    match goal with
    | |- context [sdk_authServer env ?h ?u] =>
        destruct (sdk_authServer env h u) as [e'|[md|]]
    end;
    cbn [lookup_failure];
    lazymatch goal with
    | |- _ /\ _ /\ (exists _, _) =>
        match goal with
        | |- context [upsertMcpIntegration i (discovery_cache ?m su) ?w0] =>
            destruct (cached_after_upsert i m su w0)
              as (r & w' & -> & Hcached & Hconn & Hcalls & Hlogs);
            cbn [fst snd calls connections with_log with_call] in *;
            rewrite Hcalls, Hconn, <- app_assoc;
            split; [reflexivity|]; split; [reflexivity|];
            exists m; repeat split; exact Hcached
        end
    | |- _ =>
        destruct (oauthConfig cfg) as [oc|];
        [ match goal with
          | |- context [upsertMcpIntegration i (discovery_cache ?m su) ?w0] =>
              destruct (cached_after_upsert i m su w0)
                as (r & w' & -> & Hcached & Hconn & Hcalls & Hlogs)
          end;
          cbn [fst snd calls connections with_log with_call] in *;
          rewrite Hcalls, Hconn, <- app_assoc;
          split; [reflexivity|]; split; [reflexivity|];
          split; [reflexivity | exact Hcached]
        | cbn [fst snd calls connections integrations logs with_log with_call];
          rewrite <- app_assoc;
          split; [reflexivity|]; split; [reflexivity|];
          split; [reflexivity|]; split; [reflexivity|];
          eexists; reflexivity ]
    end.
Qed.

End Discovery.

(** C2.  With both cached endpoints stored: when the row was written for
    the server URL being discovered, [discoverMetadata] returns the metadata
    built from the cached endpoints and only writes a log line, so the
    journal of network calls is unchanged; when it was written for another
    server URL (or for none), live discovery runs: the protected-resource
    lookup, then the authorization-server lookup, and the result is the
    live answer, else the static fallback, else the discovery error; the
    cached endpoints play no part in it. *)
Theorem discoverMetadata_cache (env : Env) (serverUrl integration : string)
  (w : World) (cfg : IntegrationConfig) (r : McpIntegration) (a t : string) :
  getIntegration env integration = inr cfg ->
  find (named integration) (integrations w) = Some r ->
  registeredAuthorizationUrl r = Some a -> a <> "" ->
  registeredTokenUrl r = Some t -> t <> "" ->
  let run := discoverMetadata env serverUrl integration w in
  (registeredServerUrl r = Some serverUrl ->
   run = (inr (createAuthServerMetadata serverUrl a t None),
          with_log using_cache w) /\
   calls (snd run) = calls w) /\
  (registeredServerUrl r <> Some serverUrl ->
   calls (snd run)
   = (calls w ++ [ProtectedResourceLookup serverUrl;
                  AuthServerLookup (resolved_auth_server env w serverUrl)])%list /\
   fst run
   = match live_answer env w serverUrl with
     | inr (Some metadata) => inr metadata
     | _ =>
         match oauthConfig cfg with
         | Some oc => inr (fallback_metadata serverUrl oc)
         | None => inl (MkError (discovery_failed integration))
         end
     end).
Proof.
  intros Hcfg Hr Ha Hane Ht Htne. cbv zeta. split.
  - intros Hs.
    rewrite (discoverMetadata_hit env serverUrl integration w cfg a t Hcfg);
      [split; reflexivity | | assumption | assumption].
    unfold cached. rewrite Hr. cbn. now rewrite Ha, Ht, Hs.
  - intros Hs.
    assert (Hmiss : cached_endpoints (find (named integration) (integrations w))
                      serverUrl = None).
    { rewrite Hr. unfold cached_endpoints.
      rewrite Ha, Ht, (truthy_val_intro a Hane), (truthy_val_intro t Htne).
      destruct (strict_eq (registeredServerUrl r) (Some serverUrl)) eqn:E;
        [|reflexivity].
      apply strict_eq_spec in E. contradiction. }
    destruct (discoverMetadata_live env serverUrl integration w cfg Hcfg Hmiss)
      as (Hcalls & _ & Hend).
    split; [exact Hcalls|].
    destruct (live_answer env w serverUrl) as [e|[md|]]; cbn in Hend.
    + destruct (oauthConfig cfg); apply Hend.
    + destruct Hend as (md' & E & Hrun & _). inversion E; subst md'. exact Hrun.
    + destruct (oauthConfig cfg); apply Hend.
Qed.

Lemma discoverMetadata_cache_witness :
  calls (snd (discoverMetadata provider "https://mcp.acme.com" "acme"
                (store None None))) = [] /\
  calls (snd (discoverMetadata provider "https://eu.acme.com" "acme"
                (store None None)))
  = [ProtectedResourceLookup "https://eu.acme.com";
     AuthServerLookup "https://eu.acme.com"].
Proof.
  pose proof (fun su =>
    discoverMetadata_cache provider su "acme" (store None None) acme acme_row
      "https://mcp.acme.com/authorize" "https://mcp.acme.com/token"
      eq_refl eq_refl eq_refl ltac:(discriminate) eq_refl ltac:(discriminate))
    as H.
  split.
  - exact (proj2 (proj1 (H "https://mcp.acme.com") eq_refl)).
  - exact (proj1 (proj2 (H "https://eu.acme.com") ltac:(discriminate))).
Defined.

(** C3 as the code has it.  When live discovery runs and the
    authorization-server metadata lookup fails (the SDK throws, or returns
    nothing): with a static fallback, [discoverMetadata] returns the
    metadata built from it and stores its two endpoints and the server URL
    as the cache, and when both endpoints are non-empty the next call is a
    cache hit; without one, it throws an error whose message names the
    integration and the absence of a fallback and nothing else, the cause
    going to the log, and the stored rows are as before. *)
Theorem discoverMetadata_fallback (env : Env) (serverUrl integration : string)
  (w : World) (cfg : IntegrationConfig) (cause : JsError) :
  getIntegration env integration = inr cfg ->
  cached_endpoints (find (named integration) (integrations w)) serverUrl = None ->
  lookup_failure (live_answer env w serverUrl) = Some cause ->
  let run := discoverMetadata env serverUrl integration w in
  (forall oc, oauthConfig cfg = Some oc ->
     fst run = inr (fallback_metadata serverUrl oc) /\
     cached (snd run) integration
     = Some (Some (oc_authorization_endpoint oc),
             Some (oc_token_endpoint oc), Some serverUrl) /\
     (oc_authorization_endpoint oc <> "" -> oc_token_endpoint oc <> "" ->
      discoverMetadata env serverUrl integration (snd run)
      = (inr (createAuthServerMetadata serverUrl
                (oc_authorization_endpoint oc) (oc_token_endpoint oc) None),
         with_log using_cache (snd run)))) /\
  (oauthConfig cfg = None ->
   fst run = inl (MkError (discovery_failed integration)) /\
   (exists earlier, logs (snd run) = (earlier ++ [no_fallback cause])%list) /\
   integrations (snd run) = integrations w).
Proof.
  intros Hcfg Hmiss Hfail. cbv zeta.
  destruct (discoverMetadata_live env serverUrl integration w cfg Hcfg Hmiss)
    as (_ & _ & Hend).
  rewrite Hfail in Hend. split.
  - intros oc Hoc. rewrite Hoc in Hend. destruct Hend as [Hrun Hcached].
    split; [exact Hrun|]. split; [exact Hcached|].
    intros Ha Ht.
    now apply (discoverMetadata_hit env serverUrl integration _ cfg).
  - intros Hoc. rewrite Hoc in Hend. destruct Hend as (Hrun & Hints & Hlog).
    repeat split; assumption.
Qed.

Lemma discoverMetadata_fallback_witness :
  fst (discoverMetadata provider "https://api.plain.dev/v1" "plain" empty_store)
  = inr (fallback_metadata "https://api.plain.dev/v1"
           {| oc_authorization_endpoint := "https://auth.plain.dev/authorize";
              oc_token_endpoint := "https://auth.plain.dev/token";
              oc_registration_endpoint := None |}) /\
  fst (discoverMetadata (offline "ECONNREFUSED") "https://mcp.acme.com" "acme"
         empty_store)
  = inl (MkError (discovery_failed "acme")).
Proof.
  split.
  - exact (proj1 (proj1 (discoverMetadata_fallback provider
                           "https://api.plain.dev/v1" "plain" empty_store plain
                           (MkError "ECONNREFUSED") eq_refl eq_refl eq_refl)
                        _ eq_refl)).
  - exact (proj1 (proj2 (discoverMetadata_fallback (offline "ECONNREFUSED")
                           "https://mcp.acme.com" "acme" empty_store acme
                           (MkError "ECONNREFUSED") eq_refl eq_refl eq_refl)
                        eq_refl)).
Defined.

(** C3 as stated fails.  No reading of the thrown error recovers the
    underlying cause, since two different causes end in the same error; and
    a fallback with an empty token endpoint is stored but is no cache: the
    next call looks the metadata up again. *)
Lemma discovery_error_carries_no_cause :
  ~ (exists cause_of : JsError -> JsError,
       forall cause : string,
         match fst (discoverMetadata (offline cause) "https://mcp.acme.com"
                      "acme" empty_store) with
         | inl thrown => cause_of thrown = MkError cause
         | inr _ => False
         end) /\
  (let first := discoverMetadata draft_catalog "https://draft.example" "draft"
                  empty_store in
   fst first = inr (fallback_metadata "https://draft.example"
                      {| oc_authorization_endpoint :=
                           "https://draft.example/authorize";
                         oc_token_endpoint := "";
                         oc_registration_endpoint := None |}) /\
   calls (snd (discoverMetadata draft_catalog "https://draft.example" "draft"
                 (snd first)))
   <> calls (snd first)).
Proof.
  split.
  - intros [cause_of H].
    pose proof (H "ECONNREFUSED") as H1. pose proof (H "HTTP 500") as H2.
    cbn in H1, H2. rewrite H1 in H2. discriminate H2.
  - cbv zeta. split; [reflexivity|]. vm_compute. discriminate.
Qed.

(** ** Persisted tokens *)

(** With a primary key, the row an update by id rewrites is the row that
    carries the id. *)
Lemma find_by_id_after_update (l : list McpConnection) (c : McpConnection)
  (f : McpConnection -> McpConnection) :
  NoDup (map mc_id l) -> In c l -> mc_id (f c) = mc_id c ->
  find (fun x => Nat.eqb (mc_id x) (mc_id c))
       (update_first (identified (mc_id c) (emailAccountId c)) f l)
  = Some (f c).
Proof.
  intros Hnd Hin Hid. induction l as [|x rest IH]; [contradiction|].
  cbn in Hnd. inversion Hnd as [|? ? Hx Hrest]; subst.
  destruct Hin as [-> | Hin].
  - cbn. unfold identified at 1.
    rewrite Nat.eqb_refl, String.eqb_refl. cbn.
    now rewrite Hid, Nat.eqb_refl.
  - assert (Hne : mc_id x <> mc_id c).
    { intros E. apply Hx. rewrite E. now apply in_map. }
    cbn. unfold identified at 1.
    replace (Nat.eqb (mc_id x) (mc_id c)) with false
      by (symmetry; now apply Nat.eqb_neq).
    cbn.
    replace (Nat.eqb (mc_id x) (mc_id c)) with false
      by (symmetry; now apply Nat.eqb_neq).
    now apply IH.
Qed.

Lemma connection_of_account (w : World) (a i : string) (c : McpConnection) :
  connection_of w a i = Some c -> In c (connections w) /\ emailAccountId c = a.
Proof.
  unfold connection_of. intros H. apply find_some in H as [Hin Hp].
  split; [exact Hin|]. unfold active_connection_of in Hp.
  apply andb_prop in Hp as [Hp _]. apply andb_prop in Hp as [Hp _].
  now apply String.eqb_eq.
Qed.



Lemma connection_upsert_lookup (a : string) (iid : nat) (u : ConnectionData)
  (create : nat -> McpConnection) (w : World) :
  (forall id, keyed a iid (create id) = true) ->
  exists c w',
    mcpConnection_upsert a iid u create w = (inr c, w') /\
    find (keyed a iid) (connections w') = Some c /\
    c = match find (keyed a iid) (connections w) with
        | Some old => update_connection u old
        | None => create (nextId w)
        end /\
    integrations w' = integrations w.
Proof.
  intros Hcreate. unfold mcpConnection_upsert. unfold_m.
  destruct (find (keyed a iid) (connections w)) as [old|] eqn:Hf; cbn.
  - eexists _, _. split; [reflexivity|]. cbn. repeat split.
    apply find_update_first_hit; [exact Hf|].
    apply find_some in Hf as [_ Hk]. exact Hk.
  - eexists _, _. split; [reflexivity|]. cbn. repeat split.
    now rewrite find_snoc, Hf, Hcreate.
Qed.

(** C5 as the code has it.  After a code exchange that returns, the
    connection row of (account, integration row) holds the returned access
    token, [isActive = true] and the computed expiry.  Its refresh token is
    the returned one when the token response has one; when it has none, a
    row created by the upsert gets null, and a row that existed keeps the
    refresh token it had. *)
Theorem handleOAuthCallback_persists (env : Env)
  (integration code codeVerifier redirectUri account : string)
  (w w' : World) (tokens : OAuthTokens) :
  handleOAuthCallback env integration code codeVerifier redirectUri account w
  = (inr tokens, w') ->
  exists db c',
    find (named integration) (integrations w') = Some db /\
    find (keyed account (mi_id db)) (connections w') = Some c' /\
    accessToken c' = Some (access_token tokens) /\
    isActive c' = true /\
    expiresAt c'
    = Some (clock env (clockReads w)
            + match truthy_num (expires_in tokens) with
              | Some seconds => seconds * 1000
              | None => DEFAULT_TOKEN_EXPIRY_MS
              end) /\
    refreshToken c'
    = match truthy_val (refresh_token tokens) with
      | Some returned => Some returned
      | None =>
          match find (keyed account (mi_id db)) (connections w) with
          | Some existing => refreshToken existing
          | None => None
          end
      end.
Proof.
  unfold handleOAuthCallback. intros H.
  unfold bind at 1 in H. unfold lift at 1 in H.
  destruct (getIntegration env integration) as [e|cfg]; [discriminate|].
  destruct (truthy_val (serverUrl cfg)) as [url|]; [|discriminate].
  unfold bind at 1 in H.
  pose proof (getOAuthClient_quiet env integration (Some redirectUri) w) as Q1.
  destruct (getOAuthClient env integration (Some redirectUri) w)
    as [[e|ci] wa]; [discriminate|].
  cbn [snd] in Q1.
  unfold bind at 1 in H. unfold getMetadataForIntegration in H.
  pose proof (discoverMetadata_quiet env (getOAuthServerUrl cfg) integration wa)
    as Q2.
  destruct (discoverMetadata env (getOAuthServerUrl cfg) integration wa)
    as [[e|md] wb]; [discriminate|].
  cbn [snd] in Q2.
  destruct (quiet_trans _ _ _ Q1 Q2) as (Qc & Qk & _).
  unfold bind at 1 in H. unfold lift at 1 in H.
  destruct (newURL env url) as [e|res]; [discriminate|].
  unfold bind at 1 in H. unfold exchangeAuthorization in H.
  unfold bind at 1 in H. unfold get_world at 1 in H.
  unfold bind at 1 in H. unfold record_call at 1 in H. unfold lift at 1 in H.
  destruct (sdk_exchange env (calls wb) (token_endpoint md) md ci code
              codeVerifier redirectUri res) as [e|tk]; [discriminate|].
  unfold bind at 1 in H.
  destruct (upsert_lookup integration no_data no_data
              (with_call (CodeExchange (token_endpoint md) code codeVerifier
                            redirectUri res) wb))
    as (db & wc & Eu & Hdb & _ & Hconn & _ & Hclock & _).
  rewrite Eu in H.
  unfold bind at 1 in H.
  destruct (calculateTokenExpiration_run env (expires_in tk) wc)
    as (wd & Ecalc & Kc & Ki & _ & _).
  rewrite Ecalc in H.
  cbn [clockReads connections with_call] in Hclock, Hconn.
  rewrite Hclock, Qk in H.
  unfold bind at 1 in H.
  match type of H with
  | context [mcpConnection_upsert ?a ?iid ?u ?cr wd] =>
      destruct (connection_upsert_lookup a iid u cr wd)
        as (c' & we & Ec & Hfind & Hc' & Hints);
      [ intros id; unfold keyed; cbn;
        now rewrite String.eqb_refl, Nat.eqb_refl
      | rewrite Ec in H ]
  end.
  unfold_m. cbn in H. inversion H; subst tk w'; clear H.
  exists db, c'. cbn [integrations connections with_log].
  rewrite Hints, Ki. split; [exact Hdb|]. split; [exact Hfind|].
  rewrite Kc, Hconn, Qc in Hc'. subst c'.
  unfold Js.or_else, truthy_val.
  destruct (find (keyed account (mi_id db)) (connections w)) as [old|];
    destruct (refresh_token tokens) as [rt|]; cbn;
    try destruct (Js.truthy rt); cbn; repeat split; reflexivity.
Qed.

Lemma handleOAuthCallback_persists_witness :
  exists c',
    find (keyed "acct-1" 1)
      (connections
         (snd (handleOAuthCallback provider "acme" "code" "verifier"
                 "https://app.example/callback" "acct-1" empty_store)))
    = Some c' /\
    accessToken c' = Some "at-fresh" /\ refreshToken c' = None.
Proof.
  assert (E : handleOAuthCallback provider "acme" "code" "verifier"
                "https://app.example/callback" "acct-1" empty_store
              = (inr {| access_token := "at-fresh"; token_type := "Bearer";
                        expires_in := Some 3600; refresh_token := None |},
                 snd (handleOAuthCallback provider "acme" "code" "verifier"
                        "https://app.example/callback" "acct-1" empty_store)))
    by (vm_compute; reflexivity).
  destruct (handleOAuthCallback_persists provider "acme" "code" "verifier"
              "https://app.example/callback" "acct-1" empty_store _ _ E)
    as (db & c' & Hdb & Hfind & Hat & _ & _ & Hrt).
  assert (Hid : mi_id db = 1%nat).
  { vm_compute in Hdb. inversion Hdb. reflexivity. }
  rewrite Hid in Hfind, Hrt.
  exists c'. split; [exact Hfind|]. split; [exact Hat | exact Hrt].
Defined.

(** C5 as stated fails on the update path: a connection that holds a
    refresh token still holds it after a code exchange whose token response
    carries none. *)
Lemma callback_update_keeps_stored_refresh_token :
  let run := handleOAuthCallback provider "acme" "code" "verifier"
               "https://app.example/callback" "acct-1"
               (store None (Some "rt-old")) in
  (exists tokens, fst run = inr tokens /\ refresh_token tokens = None) /\
  map refreshToken (connections (snd run)) = [Some "rt-old"] /\
  map refreshToken (connections (snd run)) <> [None].
Proof.
  cbv zeta. split; [|split].
  - eexists. split; vm_compute; reflexivity.
  - vm_compute. reflexivity.
  - vm_compute. discriminate.
Qed.

(** * Further properties *)

(** ** The auth token provider *)

(** X1.  For an integration of type api-token, [getAuthToken] answers from
    the store alone: the API key of the active connection when it has one,
    the no-API-key error otherwise; in both cases the world is untouched, so
    no clock is read, nothing is refreshed and no call goes out, whatever
    the OAuth columns of the row hold. *)
Theorem getAuthToken_api_token (env : Env) (integration account : string)
  (w : World) (cfg : IntegrationConfig) :
  getIntegration env integration = inr cfg ->
  authType cfg = ApiToken ->
  (forall key,
     opt_field (connection_of w account integration) apiKey = Some key ->
     key <> "" ->
     getAuthToken env integration account w = (inr key, w)) /\
  (opt_field (connection_of w account integration) apiKey = None \/
   opt_field (connection_of w account integration) apiKey = Some "" ->
   getAuthToken env integration account w
   = (inl (MkError (no_api_key integration)), w)).
Proof.
  intros Hcfg Htype.
  unfold getAuthToken, mcpConnection_findFirst. unfold_m.
  rewrite Hcfg. cbv beta iota. rewrite Htype.
  fold (connection_of w account integration).
  split.
  - intros key Hkey Hne. rewrite Hkey, (truthy_val_intro key Hne). reflexivity.
  - intros Hnone.
    replace (truthy_val (opt_field (connection_of w account integration) apiKey))
      with (@None string) by (symmetry; now apply truthy_val_none).
    reflexivity.
Qed.

Lemma getAuthToken_api_token_witness :
  getAuthToken keyed_catalog "notes" "acct-1" keyed_store
  = (inr "key-123", keyed_store).
Proof.
  refine (proj1 (getAuthToken_api_token keyed_catalog "notes" "acct-1"
                   keyed_store notes eq_refl eq_refl) "key-123" eq_refl _).
  discriminate.
Defined.

(** ** Client resolution *)

(** A stored client id is used when there are no static credentials. *)
Lemma getOAuthClient_stored (env : Env) (integration : string)
  (redirectUri : option string) (w : World) (cfg : IntegrationConfig)
  (r : McpIntegration) (id : string) :
  getIntegration env integration = inr cfg ->
  truthy_val (opt_field (getStaticCredentials env integration) clientId)
  = None ->
  find (named integration) (integrations w) = Some r ->
  oauthClientId r = Some id -> id <> "" ->
  getOAuthClient env integration redirectUri w
  = (inr {| client_id := id;
            client_secret := truthy_val (oauthClientSecret r) |},
     with_log stored_credentials_line w).
Proof.
  intros Hcfg Hstatic Hr Hid Hne.
  unfold getOAuthClient, mcpIntegration_findUnique. unfold_m.
  rewrite Hcfg. cbv beta iota zeta. rewrite Hstatic.
  cbv beta iota zeta. rewrite Hr. cbn [opt_field].
  rewrite Hid, (truthy_val_intro id Hne).
  unfold Js.or_else, truthy_val, Js.truthyO.
  destruct (oauthClientSecret r) as [s|]; [|reflexivity].
  destruct (Js.truthy s); reflexivity.
Qed.

(** X2.  The resolution order of [getOAuthClient].  Static credentials with
    a client id win, whatever the store holds and whether or not a redirect
    URI is given; without them, a stored client id is used, with its stored
    secret when that is non-empty.  Neither path sends a request or writes
    to the store: the world only gains a log line. *)
Theorem getOAuthClient_resolution_order (env : Env) (integration : string)
  (redirectUri : option string) (w : World) (cfg : IntegrationConfig) :
  getIntegration env integration = inr cfg ->
  (forall sc id,
     getStaticCredentials env integration = Some sc ->
     clientId sc = Some id -> id <> "" ->
     getOAuthClient env integration redirectUri w
     = (inr {| client_id := id; client_secret := clientSecret sc |},
        with_log static_credentials_line w)) /\
  (forall r id,
     truthy_val (opt_field (getStaticCredentials env integration) clientId)
     = None ->
     find (named integration) (integrations w) = Some r ->
     oauthClientId r = Some id -> id <> "" ->
     getOAuthClient env integration redirectUri w
     = (inr {| client_id := id;
               client_secret := truthy_val (oauthClientSecret r) |},
        with_log stored_credentials_line w)).
Proof.
  intros Hcfg. split.
  - intros sc id Hsc Hid Hne.
    unfold getOAuthClient. unfold_m. rewrite Hcfg. cbv beta iota zeta.
    rewrite Hsc. cbn [opt_field]. rewrite Hid, (truthy_val_intro id Hne).
    reflexivity.
  - intros r id Hstatic Hr Hid Hne.
    now apply (getOAuthClient_stored env integration redirectUri w cfg r id).
Qed.

Lemma getOAuthClient_resolution_order_witness :
  fst (getOAuthClient keyed_catalog "acme" None (store None None))
  = inr {| client_id := "static-client";
           client_secret := Some "static-secret" |} /\
  fst (getOAuthClient provider "acme" None (store None None))
  = inr {| client_id := "dyn-client"; client_secret := None |}.
Proof.
  split.
  - refine (f_equal fst
              (proj1 (getOAuthClient_resolution_order keyed_catalog "acme" None
                        (store None None) acme eq_refl)
                     _ "static-client" eq_refl eq_refl _)).
    discriminate.
  - refine (f_equal fst
              (proj2 (getOAuthClient_resolution_order provider "acme" None
                        (store None None) acme eq_refl)
                     acme_row "dyn-client" eq_refl eq_refl eq_refl _)).
    discriminate.
Defined.

(** X3.  Once the discovery cache of an integration is valid, a client
    cannot be registered for it any more.  The metadata rebuilt from the
    cache has no registration endpoint, so without static or stored client
    credentials [getOAuthClient] fails with the registration-unsupported
    error, even with a server URL and a redirect URI, and it does so
    without sending a request or writing to the store. *)
Theorem getOAuthClient_cache_blocks_registration (env : Env)
  (integration uri : string) (w : World) (cfg : IntegrationConfig)
  (a t : string) :
  getIntegration env integration = inr cfg ->
  truthy_val (opt_field (getStaticCredentials env integration) clientId) = None ->
  truthy_val (opt_field (find (named integration) (integrations w)) oauthClientId)
  = None ->
  truthy_val (serverUrl cfg) <> None -> uri <> "" ->
  cached w integration = Some (Some a, Some t, Some (getOAuthServerUrl cfg)) ->
  a <> "" -> t <> "" ->
  let run := getOAuthClient env integration (Some uri) w in
  fst run = inl (MkError (registration_unsupported integration)) /\
  calls (snd run) = calls w /\
  integrations (snd run) = integrations w /\
  connections (snd run) = connections w.
Proof.
  intros Hcfg Hstatic Hstored Hurl Huri Hcache Ha Ht. cbv zeta.
  unfold getOAuthClient, mcpIntegration_findUnique. unfold_m.
  rewrite Hcfg. cbv beta iota zeta. rewrite Hstatic.
  cbv beta iota zeta. rewrite Hstored.
  destruct (truthy_val (serverUrl cfg)) as [url|]; [|contradiction].
  rewrite (truthy_val_intro uri Huri).
  match goal with
  | |- context [discoverMetadata env ?su integration ?w0] =>
      rewrite (discoverMetadata_hit env su integration w0 cfg a t Hcfg Hcache Ha Ht)
  end.
  cbn. repeat split.
Qed.

Lemma getOAuthClient_cache_blocks_registration_witness :
  let first := getOAuthClient registration_down "acme"
                 (Some "https://app.example/callback") empty_store in
  fst first = inl (MkError "HTTP 503") /\
  fst (getOAuthClient registration_down "acme"
         (Some "https://app.example/callback") (snd first))
  = inl (MkError (registration_unsupported "acme")).
Proof.
  cbv zeta. split; [vm_compute; reflexivity|].
  refine (proj1 (getOAuthClient_cache_blocks_registration registration_down
                   "acme" "https://app.example/callback" _ acme
                   "https://mcp.acme.com/authorize" "https://mcp.acme.com/token"
                   eq_refl eq_refl _ _ _ _ _ _));
    try discriminate; vm_compute; reflexivity.
Defined.

(** X4.  A dynamic registration is remembered.  When [getOAuthClient] has
    neither static nor stored credentials and returns, it sent a
    registration request for a public client with the given redirect URI as
    its only one and the integration's scopes, and it stored the client it
    got: if the client id is non-empty, the next call, with or without a
    redirect URI, returns the same client id (and the same secret, when one
    was issued) from the store, without sending a request. *)
Theorem getOAuthClient_registration_is_remembered (env : Env)
  (integration uri : string) (w w' : World) (client : OAuthClientInformation) :
  truthy_val (opt_field (getStaticCredentials env integration) clientId) = None ->
  truthy_val (opt_field (find (named integration) (integrations w)) oauthClientId)
  = None ->
  getOAuthClient env integration (Some uri) w = (inr client, w') ->
  client_id client <> "" ->
  (exists endpoint cfg,
     getIntegration env integration = inr cfg /\
     In (Registration endpoint
           {| client_name := "Inbox Zero";
              redirect_uris := [uri];
              grant_types := ["authorization_code"; "refresh_token"];
              response_types := ["code"];
              token_endpoint_auth_method := "none";
              scope := Js.join " " (scopes cfg) |})
        (calls w')) /\
  forall redirectUri,
    exists secret,
      getOAuthClient env integration redirectUri w'
      = (inr {| client_id := client_id client; client_secret := secret |},
         with_log stored_credentials_line w') /\
      (forall s, client_secret client = Some s -> s <> "" -> secret = Some s).
Proof.
  intros Hstatic Hstored Hrun Hne.
  unfold getOAuthClient in Hrun.
  unfold bind at 1 in Hrun. unfold lift at 1 in Hrun.
  destruct (getIntegration env integration) as [e|cfg] eqn:Hcfg; [discriminate|].
  cbv zeta in Hrun. rewrite Hstatic in Hrun.
  unfold bind at 1 in Hrun. unfold mcpIntegration_findUnique at 1 in Hrun.
  rewrite Hstored in Hrun.
  destruct (truthy_val (serverUrl cfg)) as [url|]; [|discriminate].
  destruct (truthy_val (Some uri)) as [uri'|] eqn:Huri; [|discriminate].
  apply truthy_val_some in Huri as [Huri _]. inversion Huri; subst uri'.
  unfold bind at 1 in Hrun. unfold log at 1 in Hrun.
  unfold bind at 1 in Hrun.
  destruct (discoverMetadata env (getOAuthServerUrl cfg) integration _)
    as [[e|md] wb]; [discriminate|].
  destruct (truthy_val (registration_endpoint md)) as [ep|]; [|discriminate].
  unfold bind at 1 in Hrun. unfold registerClient in Hrun.
  unfold bind at 1 in Hrun. unfold get_world at 1 in Hrun.
  unfold bind at 1 in Hrun. unfold record_call at 1 in Hrun.
  unfold lift at 1 in Hrun.
  destruct (sdk_register env (calls wb) ep md _) as [e|registered];
    [discriminate|].
  unfold bind at 1 in Hrun. unfold upsertMcpIntegration in Hrun.
  match type of Hrun with
  | context [mcpIntegration_upsert integration ?d ?d ?w0] =>
      destruct (upsert_lookup integration d d w0)
        as (r & wc & Eu & Hfind & Hr & _ & Hcalls & _ & _);
      rewrite Eu in Hrun
  end.
  unfold_m. cbn in Hrun. inversion Hrun; subst client w'; clear Hrun.
  cbn [client_id client_secret] in *.
  split.
  - exists ep, cfg. split; [reflexivity|].
    cbn [calls with_log]. rewrite Hcalls. cbn [calls with_call].
    apply in_or_app. right. left. reflexivity.
  - intros redirectUri.
    assert (Hid : oauthClientId r = Some (client_id registered)).
    { rewrite Hr.
      match goal with
      | |- context [match ?x with Some _ => _ | None => _ end] => destruct x
      end; reflexivity. }
    exists (truthy_val (oauthClientSecret r)). split.
    + assert (Hcfg' : getIntegration env integration = inr cfg) by exact Hcfg.
      apply (getOAuthClient_stored env integration redirectUri _ cfg r
               (client_id registered));
        [exact Hcfg' | exact Hstatic | exact Hfind | exact Hid | exact Hne].
    + intros s Hs Hsne.
      assert (Hsec : oauthClientSecret r = Some s).
      { rewrite Hr.
        match goal with
        | |- context [match ?x with Some _ => _ | None => _ end] => destruct x
        end; cbn; rewrite Hs; reflexivity. }
      rewrite Hsec. now apply truthy_val_intro.
Qed.

Lemma getOAuthClient_registration_is_remembered_witness :
  exists secret,
    fst (getOAuthClient provider "acme" None
           (snd (getOAuthClient provider "acme"
                   (Some "https://app.example/callback") empty_store)))
    = inr {| client_id := "dyn-client"; client_secret := secret |}.
Proof.
  assert (E : getOAuthClient provider "acme"
                (Some "https://app.example/callback") empty_store
              = (inr {| client_id := "dyn-client"; client_secret := None |},
                 snd (getOAuthClient provider "acme"
                        (Some "https://app.example/callback") empty_store)))
    by (vm_compute; reflexivity).
  destruct (proj2 (getOAuthClient_registration_is_remembered provider "acme"
                     "https://app.example/callback" empty_store _ _
                     eq_refl eq_refl E ltac:(discriminate)) None)
    as (secret & Heq & _).
  exists secret. rewrite Heq. reflexivity.
Defined.

(** ** Discovery, continued *)

(** X5.  Live discovery is done once per server URL.  When the
    authorization-server lookup answers with metadata whose two endpoints
    are non-empty, [discoverMetadata] returns that metadata and stores the
    endpoints, and the next call for the same server URL answers from the
    store without a request.  The second answer is rebuilt from the two
    endpoints: its issuer is the server URL and it has no registration
    endpoint, whatever the live metadata had. *)
Theorem discoverMetadata_live_then_cached (env : Env)
  (serverUrl integration : string) (w : World) (cfg : IntegrationConfig)
  (metadata : AuthorizationServerMetadata) :
  getIntegration env integration = inr cfg ->
  cached_endpoints (find (named integration) (integrations w)) serverUrl = None ->
  live_answer env w serverUrl = inr (Some metadata) ->
  authorization_endpoint metadata <> "" -> token_endpoint metadata <> "" ->
  let first := discoverMetadata env serverUrl integration w in
  let second := discoverMetadata env serverUrl integration (snd first) in
  fst first = inr metadata /\
  fst second
  = inr (createAuthServerMetadata serverUrl (authorization_endpoint metadata)
           (token_endpoint metadata) None) /\
  calls (snd second) = calls (snd first) /\
  integrations (snd second) = integrations (snd first).
Proof.
  intros Hcfg Hmiss Hlive Ha Ht. cbv zeta.
  destruct (discoverMetadata_live env serverUrl integration w cfg Hcfg Hmiss)
    as (_ & _ & Hend).
  rewrite Hlive in Hend. cbn [lookup_failure] in Hend.
  destruct Hend as (md & E & Hrun & Hcached). inversion E; subst md.
  split; [exact Hrun|].
  rewrite (discoverMetadata_hit env serverUrl integration _ cfg _ _
             Hcfg Hcached Ha Ht).
  repeat split.
Qed.

Lemma discoverMetadata_live_then_cached_witness :
  let first := discoverMetadata provider "https://mcp.acme.com" "acme"
                 empty_store in
  fst first = inr acme_metadata /\
  calls (snd (discoverMetadata provider "https://mcp.acme.com" "acme"
                (snd first)))
  = calls (snd first).
Proof.
  pose proof (discoverMetadata_live_then_cached provider "https://mcp.acme.com"
                "acme" empty_store acme acme_metadata eq_refl eq_refl eq_refl
                ltac:(discriminate) ltac:(discriminate)) as H.
  cbv zeta in *. split; [exact (proj1 H) | exact (proj1 (proj2 (proj2 H)))].
Defined.

(** X6.  The protected-resource lookup is best effort.  On a cache miss it
    is always the first request, for the server URL.  If it throws, or
    names no authorization server, or names an empty one, the
    authorization-server lookup goes to the server URL itself; if it names
    one, the lookup goes there.  These two requests are all that a
    discovery sends. *)
Theorem protected_resource_lookup_is_best_effort (env : Env)
  (serverUrl integration : string) (w : World) (cfg : IntegrationConfig) :
  getIntegration env integration = inr cfg ->
  cached_endpoints (find (named integration) (integrations w)) serverUrl = None ->
  let sent := calls (snd (discoverMetadata env serverUrl integration w)) in
  (forall e,
     sdk_protectedResource env (calls w) serverUrl = inl e ->
     sent = (calls w ++ [ProtectedResourceLookup serverUrl;
                         AuthServerLookup serverUrl])%list) /\
  (forall resourceMetadata,
     sdk_protectedResource env (calls w) serverUrl = inr resourceMetadata ->
     (opt_field resourceMetadata authorization_servers = None \/
      opt_field resourceMetadata authorization_servers = Some [] \/
      exists rest,
        opt_field resourceMetadata authorization_servers = Some ("" :: rest)) ->
     sent = (calls w ++ [ProtectedResourceLookup serverUrl;
                         AuthServerLookup serverUrl])%list) /\
  (forall resourceMetadata server rest,
     sdk_protectedResource env (calls w) serverUrl = inr resourceMetadata ->
     opt_field resourceMetadata authorization_servers = Some (server :: rest) ->
     server <> "" ->
     sent = (calls w ++ [ProtectedResourceLookup serverUrl;
                         AuthServerLookup server])%list).
Proof.
  intros Hcfg Hmiss. cbv zeta.
  destruct (discoverMetadata_live env serverUrl integration w cfg Hcfg Hmiss)
    as (Hcalls & _ & _).
  rewrite Hcalls. unfold resolved_auth_server.
  split; [|split].
  - intros e ->. reflexivity.
  - intros rm -> H. destruct rm as [[servers]|]; cbn in *.
    + destruct H as [-> | [-> | [rest ->]]]; reflexivity.
    + reflexivity.
  - intros rm server rest -> H Hne. destruct rm as [[servers]|]; cbn in H;
      [|discriminate].
    unfold first_authorization_server. cbn [authorization_servers].
    rewrite H, (truthy_val_intro server Hne). reflexivity.
Qed.

Lemma protected_resource_lookup_is_best_effort_witness :
  calls (snd (discoverMetadata provider "https://mcp.acme.com" "acme"
                empty_store))
  = [ProtectedResourceLookup "https://mcp.acme.com";
     AuthServerLookup "https://mcp.acme.com"] /\
  calls (snd (discoverMetadata delegating "https://mcp.acme.com" "acme"
                empty_store))
  = [ProtectedResourceLookup "https://mcp.acme.com";
     AuthServerLookup "https://login.acme.com"].
Proof.
  split.
  - exact (proj1 (protected_resource_lookup_is_best_effort provider
                    "https://mcp.acme.com" "acme" empty_store acme
                    eq_refl eq_refl)
                 (MkError "HTTP 404") eq_refl).
  - refine (proj2 (proj2 (protected_resource_lookup_is_best_effort delegating
                    "https://mcp.acme.com" "acme" empty_store acme
                    eq_refl eq_refl))
                 _ "https://login.acme.com" [] eq_refl eq_refl _).
    discriminate.
Defined.

(** ** What client resolution and discovery send *)

Lemma setup_only_refl (w : World) : setup_only w w.
Proof. exists []. split; [now rewrite app_nil_r | reflexivity]. Qed.

Lemma setup_only_trans (a b c : World) :
  setup_only a b -> setup_only b c -> setup_only a c.
Proof.
  intros (s1 & H1 & F1) (s2 & H2 & F2). exists (s1 ++ s2)%list. split.
  - now rewrite H2, H1, app_assoc.
  - now rewrite forallb_app, F1, F2.
Qed.

Section Setup.

Variable env : Env.

Lemma log_setup_only (l : LogLevel) (msg : string) (err : option JsError) :
  preserves setup_only (log l msg err).
Proof.
  intros w. exists []. split; [cbn; now rewrite app_nil_r | reflexivity].
Qed.

Lemma upsert_setup_only (n : string) (u c : IntegrationData) :
  preserves setup_only (mcpIntegration_upsert n u c).
Proof.
  intros w.
  destruct (upsert_lookup n u c w) as (r & w' & -> & _ & _ & _ & Hcalls & _).
  cbn [snd]. exists []. split; [now rewrite Hcalls, app_nil_r | reflexivity].
Qed.

Lemma with_call_setup_only (c : NetCall) (w : World) :
  is_setup_call c = true -> setup_only w (with_call c w).
Proof. intros Hc. exists [c]. split; [reflexivity | cbn; now rewrite Hc]. Qed.

Lemma protectedResource_setup_only (url : string) :
  preserves setup_only (discoverOAuthProtectedResourceMetadata env url).
Proof.
  intros w. unfold discoverOAuthProtectedResourceMetadata. unfold_m.
  destruct (sdk_protectedResource env (calls w) url);
    now apply with_call_setup_only.
Qed.

Lemma authServer_setup_only (url : string) :
  preserves setup_only (discoverAuthorizationServerMetadata env url).
Proof.
  intros w. unfold discoverAuthorizationServerMetadata. unfold_m.
  destruct (sdk_authServer env (calls w) url); now apply with_call_setup_only.
Qed.

Lemma registerClient_setup_only (ep : string) (md : AuthorizationServerMetadata)
  (cm : OAuthClientMetadata) :
  preserves setup_only (registerClient env ep md cm).
Proof.
  intros w. unfold registerClient. unfold_m.
  destruct (sdk_register env (calls w) ep md cm);
    now apply with_call_setup_only.
Qed.

Ltac setup_base :=
  first [ apply log_setup_only | apply upsert_setup_only
        | apply protectedResource_setup_only | apply authServer_setup_only
        | apply registerClient_setup_only ].

Lemma discoverMetadata_setup_only (su i : string) :
  preserves setup_only (discoverMetadata env su i).
Proof.
  unfold discoverMetadata, upsertMcpIntegration.
  preserve_with setup_only_refl setup_only_trans setup_base.
Qed.

Lemma getOAuthClient_setup_only (i : string) (redirect : option string) :
  preserves setup_only (getOAuthClient env i redirect).
Proof.
  unfold getOAuthClient, upsertMcpIntegration.
  preserve_with setup_only_refl setup_only_trans
    ltac:(first [setup_base | apply discoverMetadata_setup_only]).
Qed.

Variable sdk_startAuthorization :
  World -> string -> AuthorizationServerMetadata -> OAuthClientInformation ->
  string -> string -> string -> string -> Result AuthorizationStart.

(** X7.  [generateOAuthUrl] only prepares.  Whatever its outcome, the
    connections are as they were, the clock was not read, and every request
    it sent is one of discovery or registration: no authorization code and
    no refresh token is exchanged. *)
Theorem generateOAuthUrl_only_prepares (integration redirectUri state : string)
  (w : World) :
  let w' := snd (generateOAuthUrl env sdk_startAuthorization integration
                   redirectUri state w) in
  connections w' = connections w /\
  clockReads w' = clockReads w /\
  setup_only w w'.
Proof.
  cbv zeta.
  assert (Q : preserves quiet
                (generateOAuthUrl env sdk_startAuthorization integration
                   redirectUri state)).
  { unfold generateOAuthUrl, getMetadataForIntegration.
    preserve_with quiet_refl quiet_trans
      ltac:(first [ apply log_quiet | apply getOAuthClient_quiet
                  | apply discoverMetadata_quiet ]). }
  assert (S : preserves setup_only
                (generateOAuthUrl env sdk_startAuthorization integration
                   redirectUri state)).
  { unfold generateOAuthUrl, getMetadataForIntegration.
    preserve_with setup_only_refl setup_only_trans
      ltac:(first [ apply log_setup_only | apply getOAuthClient_setup_only
                  | apply discoverMetadata_setup_only ]). }
  destruct (Q w) as (Hc & Hk & _). split; [exact Hc|]. split; [exact Hk|].
  apply S.
Qed.


End Setup.


(** ** Failing fast *)

Section FailFast.

Variable env : Env.

Variable sdk_startAuthorization :
  World -> string -> AuthorizationServerMetadata -> OAuthClientInformation ->
  string -> string -> string -> string -> Result AuthorizationStart.

(** X9.  An integration key the catalog rejects, or an integration without
    a server URL, stops the three OAuth operations at once: starting a
    flow, completing one and refreshing fail with the catalog's error,
    respectively the no-server-URL error, and leave the world untouched
    (nothing read from the store, nothing sent, nothing written). *)
Theorem oauth_operations_fail_fast (integration : string) (w : World) :
  (forall e, getIntegration env integration = inl e ->
     (forall redirectUri state,
        generateOAuthUrl env sdk_startAuthorization integration redirectUri
          state w = (inl e, w)) /\
     (forall code codeVerifier redirectUri account,
        handleOAuthCallback env integration code codeVerifier redirectUri
          account w = (inl e, w)) /\
     (forall account,
        refreshOAuthTokens env integration account w = (inl e, w))) /\
  (forall cfg, getIntegration env integration = inr cfg ->
     serverUrl cfg = None \/ serverUrl cfg = Some "" ->
     (forall redirectUri state,
        generateOAuthUrl env sdk_startAuthorization integration redirectUri
          state w = (inl (MkError (no_server_url integration)), w)) /\
     (forall code codeVerifier redirectUri account,
        handleOAuthCallback env integration code codeVerifier redirectUri
          account w = (inl (MkError (no_server_url integration)), w)) /\
     (forall account,
        refreshOAuthTokens env integration account w
        = (inl (MkError (no_server_url integration)), w))).
Proof.
  split.
  - intros e He. repeat split; intros;
      unfold generateOAuthUrl, handleOAuthCallback, refreshOAuthTokens;
      unfold_m; rewrite He; reflexivity.
  - intros cfg Hcfg Hurl. apply truthy_val_none in Hurl.
    repeat split; intros;
      unfold generateOAuthUrl, handleOAuthCallback, refreshOAuthTokens;
      unfold_m; rewrite Hcfg; cbv beta iota; rewrite Hurl; reflexivity.
Qed.

End FailFast.

Lemma oauth_operations_fail_fast_witness :
  refreshOAuthTokens keyed_catalog "unknown" "acct-1" keyed_store
  = (inl (MkError "Unknown integration: unknown"), keyed_store) /\
  handleOAuthCallback keyed_catalog "notes" "code" "verifier"
    "https://app.example/callback" "acct-1" keyed_store
  = (inl (MkError (no_server_url "notes")), keyed_store).
Proof.
  split.
  - exact (proj2 (proj2 (proj1 (oauth_operations_fail_fast keyed_catalog
                                  pkce_start "unknown" keyed_store)
                               (MkError "Unknown integration: unknown") eq_refl))
                 "acct-1").
  - exact (proj1 (proj2 (proj2 (oauth_operations_fail_fast keyed_catalog
                                  pkce_start "notes" keyed_store)
                               notes eq_refl (or_introl eq_refl)))
                 "code" "verifier" "https://app.example/callback" "acct-1").
Defined.

(** ** Failed operations and the stored tokens *)

Section Failures.

Variable env : Env.

Lemma connection_update_found (c : McpConnection) (a : string)
  (d : ConnectionData) (w : World) :
  In c (connections w) -> emailAccountId c = a ->
  exists c' w',
    mcpConnection_update (mc_id c) a d w = (inr c', w') /\
    connections w'
    = update_first (identified (mc_id c) a) (update_connection d)
        (connections w) /\
    integrations w' = integrations w /\ nextId w' = nextId w.
Proof.
  intros Hin Ha. unfold mcpConnection_update. unfold_m.
  destruct (find (identified (mc_id c) a) (connections w)) as [c0|] eqn:Hf.
  - eexists _, _. split; [reflexivity|]. repeat split.
  - exfalso. pose proof (find_none _ _ Hf c Hin) as Hn.
    unfold identified in Hn.
    rewrite Nat.eqb_refl, Ha, String.eqb_refl in Hn. discriminate.
Qed.

Lemma refreshOAuthTokens_failure (i a : string) (w w' : World) (e : JsError) :
  refreshOAuthTokens env i a w = (inl e, w') ->
  connections w' = connections w.
Proof.
  unfold refreshOAuthTokens. intros H.
  unfold bind at 1 in H. unfold lift at 1 in H.
  destruct (getIntegration env i) as [e0|cfg]; [now inversion H|].
  destruct (truthy_val (serverUrl cfg)) as [url|]; [|now inversion H].
  unfold bind at 1 in H. unfold mcpConnection_findFirst at 1 in H.
  fold (connection_of w a i) in H.
  destruct (connection_of w a i) as [c|] eqn:Hc; [|now inversion H].
  cbn [opt_field] in H.
  destruct (truthy_val (refreshToken c)) as [rt|]; [|now inversion H].
  unfold bind at 1 in H.
  pose proof (getOAuthClient_quiet env i None w) as Q1.
  destruct (getOAuthClient env i None w) as [[e0|ci] wa]; cbn [snd] in Q1;
    [inversion H; subst; apply Q1|].
  unfold bind at 1 in H. unfold getMetadataForIntegration in H.
  pose proof (discoverMetadata_quiet env (getOAuthServerUrl cfg) i wa) as Q2.
  destruct (discoverMetadata env (getOAuthServerUrl cfg) i wa) as [[e0|md] wb];
    cbn [snd] in Q2; destruct (quiet_trans _ _ _ Q1 Q2) as (Qc & _ & _);
    [inversion H; subst; exact Qc|].
  unfold bind at 1 in H. unfold lift at 1 in H.
  destruct (newURL env url) as [e0|res]; [inversion H; subst; exact Qc|].
  unfold bind at 1 in H. unfold refreshAuthorization in H.
  unfold bind at 1 in H. unfold get_world at 1 in H.
  unfold bind at 1 in H. unfold record_call at 1 in H. unfold lift at 1 in H.
  destruct (sdk_refresh env (calls wb) (token_endpoint md) md ci rt res)
    as [e0|tk]; [inversion H; subst; exact Qc|].
  exfalso.
  unfold bind at 1 in H.
  match type of H with
  | context [calculateTokenExpiration env ?x ?w0] =>
      destruct (calculateTokenExpiration_run env x w0)
        as (wc & Hcalc & Kc & _); rewrite Hcalc in H
  end.
  unfold bind at 1 in H.
  destruct (connection_of_account w a i c Hc) as [Hin Hacc].
  match type of H with
  | context [mcpConnection_update (mc_id c) a ?d wc] =>
      destruct (connection_update_found c a d wc) as (c' & wd & Eu & _);
      [ rewrite Kc; cbn [connections with_call]; rewrite Qc; exact Hin
      | exact Hacc
      | rewrite Eu in H ]
  end.
  unfold_m. cbn in H. discriminate.
Qed.

(** X10.  A failed operation leaves the stored tokens alone.  When
    completing a flow fails, at whatever step, and when the access-token
    provider fails, be it for a missing connection, a lapsed one or a
    refresh that went wrong, the connection table is exactly as it was:
    there is no partial write of tokens (the store itself being reliable). *)
Theorem failed_operations_keep_connections :
  (forall integration code codeVerifier redirectUri account w w' e,
     handleOAuthCallback env integration code codeVerifier redirectUri
       account w = (inl e, w') ->
     connections w' = connections w) /\
  (forall integration account w w' e,
     getValidAccessToken env integration account w = (inl e, w') ->
     connections w' = connections w) /\
  (forall integration account w w' e,
     getAuthToken env integration account w = (inl e, w') ->
     connections w' = connections w).
Proof.
  assert (Hvalid : forall integration account w w' e,
             getValidAccessToken env integration account w = (inl e, w') ->
             connections w' = connections w).
  { intros i a w w' e H. unfold getValidAccessToken in H.
    unfold bind at 1 in H. unfold mcpConnection_findFirst at 1 in H.
    destruct (find _ (connections w)) as [c|]; [|now inversion H].
    cbn [opt_field] in H.
    destruct (truthy_val (accessToken c)) as [tok|]; [|now inversion H].
    unfold bind at 1 in H. unfold Date_now at 1 in H. cbv zeta in H.
    destruct (match expiresAt c with
              | Some t => t <? clock env (clockReads w)
              | None => false
              end); cbn [andb] in H;
      [destruct (Js.truthyO (refreshToken c))|]; try (now inversion H).
    unfold bind at 1 in H. unfold log at 1 in H.
    unfold bind at 1 in H.
    destruct (refreshOAuthTokens env i a _) as [[e0|tk] w1] eqn:Hr;
      [|discriminate].
    inversion H; subst.
    now rewrite (refreshOAuthTokens_failure i a _ _ _ Hr). }
  split; [|split; [exact Hvalid|]].
  - intros i code ver redirect a w w' e H. unfold handleOAuthCallback in H.
    unfold bind at 1 in H. unfold lift at 1 in H.
    destruct (getIntegration env i) as [e0|cfg]; [now inversion H|].
    destruct (truthy_val (serverUrl cfg)) as [url|]; [|now inversion H].
    unfold bind at 1 in H.
    pose proof (getOAuthClient_quiet env i (Some redirect) w) as Q1.
    destruct (getOAuthClient env i (Some redirect) w) as [[e0|ci] wa];
      cbn [snd] in Q1; [inversion H; subst; apply Q1|].
    unfold bind at 1 in H. unfold getMetadataForIntegration in H.
    pose proof (discoverMetadata_quiet env (getOAuthServerUrl cfg) i wa) as Q2.
    destruct (discoverMetadata env (getOAuthServerUrl cfg) i wa)
      as [[e0|md] wb];
      cbn [snd] in Q2; destruct (quiet_trans _ _ _ Q1 Q2) as (Qc & _ & _);
      [inversion H; subst; exact Qc|].
    unfold bind at 1 in H. unfold lift at 1 in H.
    destruct (newURL env url) as [e0|res]; [inversion H; subst; exact Qc|].
    unfold bind at 1 in H. unfold exchangeAuthorization in H.
    unfold bind at 1 in H. unfold get_world at 1 in H.
    unfold bind at 1 in H. unfold record_call at 1 in H. unfold lift at 1 in H.
    destruct (sdk_exchange env (calls wb) (token_endpoint md) md ci code ver
                redirect res) as [e0|tk]; [inversion H; subst; exact Qc|].
    exfalso.
    unfold bind at 1 in H.
    match type of H with
    | context [mcpIntegration_upsert i no_data no_data ?w0] =>
        destruct (upsert_lookup i no_data no_data w0)
          as (db & wc & Eu & _); rewrite Eu in H
    end.
    unfold bind at 1 in H.
    destruct (calculateTokenExpiration_run env (expires_in tk) wc)
      as (wd & Ecalc & _). rewrite Ecalc in H.
    unfold bind at 1 in H.
    match type of H with
    | context [mcpConnection_upsert ?a0 ?iid ?u ?cr wd] =>
        destruct (connection_upsert_lookup a0 iid u cr wd)
          as (c' & we & Ec & _);
        [ intros id; unfold keyed; cbn;
          now rewrite String.eqb_refl, Nat.eqb_refl
        | rewrite Ec in H ]
    end.
    unfold_m. cbn in H. discriminate.
  - intros i a w w' e H. unfold getAuthToken in H.
    unfold bind at 1 in H. unfold lift at 1 in H.
    destruct (getIntegration env i) as [e0|cfg]; [now inversion H|].
    destruct (authType cfg); [now apply (Hvalid i a w w' e)|].
    unfold bind at 1 in H. unfold mcpConnection_findFirst at 1 in H.
    destruct (truthy_val _); now inversion H.
Qed.

End Failures.

Lemma failed_operations_keep_connections_witness :
  connections
    (snd (getValidAccessToken rejecting "acme" "acct-1"
            (store (Some 1699999999999) (Some "rt-old"))))
  = connections (store (Some 1699999999999) (Some "rt-old")).
Proof.
  refine (proj1 (proj2 (failed_operations_keep_connections rejecting))
            "acme" "acct-1" (store (Some 1699999999999) (Some "rt-old")) _
            (MkError "invalid_grant") _).
  vm_compute. reflexivity.
Defined.

(** ** The constraints of the tables *)

Section UpdateFirst.

Context {A B : Type}.

Lemma map_update_first (g : A -> B) (p : A -> bool) (f : A -> A) (l : list A) :
  (forall x, g (f x) = g x) -> map g (update_first p f l) = map g l.
Proof.
  intros Hg. induction l as [|x rest IH]; cbn; [reflexivity|].
  destruct (p x); cbn; [now rewrite Hg | now rewrite IH].
Qed.

Lemma NoDup_snoc (l : list B) (x : B) :
  NoDup l -> ~ In x l -> NoDup (l ++ [x]).
Proof.
  intros Hl Hx. induction Hl as [|y rest Hy Hrest IH]; cbn.
  - constructor; [intros [] | constructor].
  - constructor.
    + intros Hin. apply in_app_or in Hin as [Hin | [-> | []]].
      * contradiction.
      * apply Hx. now left.
    + apply IH. intros Hin. apply Hx. now right.
Qed.

End UpdateFirst.

Lemma find_named_none (n : string) (l : list McpIntegration) :
  find (named n) l = None -> ~ In n (map mi_name l).
Proof.
  intros Hf Hin. apply in_map_iff in Hin as (r & Hr & Hin).
  pose proof (find_none _ _ Hf r Hin) as Hn. unfold named in Hn.
  rewrite Hr, String.eqb_refl in Hn. discriminate.
Qed.

Lemma find_keyed_none (a : string) (iid : nat) (l : list McpConnection) :
  find (keyed a iid) l = None -> ~ In (a, iid) (map connection_key l).
Proof.
  intros Hf Hin. apply in_map_iff in Hin as (c & Hc & Hin).
  pose proof (find_none _ _ Hf c Hin) as Hn. unfold keyed in Hn.
  unfold connection_key in Hc. inversion Hc; subst.
  rewrite String.eqb_refl, Nat.eqb_refl in Hn. discriminate.
Qed.

Lemma keeps_well_formed_refl (w : World) : keeps_well_formed w w.
Proof. intros H. exact H. Qed.

Lemma keeps_well_formed_trans (a b c : World) :
  keeps_well_formed a b -> keeps_well_formed b c -> keeps_well_formed a c.
Proof. intros H K Ha. apply K, H, Ha. Qed.

Lemma same_tables_well_formed (w w' : World) :
  same_tables w w' -> keeps_well_formed w w'.
Proof.
  intros (Hi & Hc & Hn) [Hio Hco].
  unfold well_formed, integrations_ok, connections_ok in *.
  rewrite Hi, Hc, Hn. now split.
Qed.

Section Constraints.

Variable env : Env.

Lemma log_well_formed (l : LogLevel) (msg : string) (err : option JsError) :
  preserves keeps_well_formed (log l msg err).
Proof. intros w. apply same_tables_well_formed. repeat split. Qed.

Lemma Date_now_well_formed : preserves keeps_well_formed (Date_now env).
Proof. intros w. apply same_tables_well_formed. repeat split. Qed.

Lemma protectedResource_well_formed (url : string) :
  preserves keeps_well_formed (discoverOAuthProtectedResourceMetadata env url).
Proof.
  intros w. apply same_tables_well_formed.
  unfold discoverOAuthProtectedResourceMetadata. unfold_m.
  destruct (sdk_protectedResource env (calls w) url); repeat split.
Qed.

Lemma authServer_well_formed (url : string) :
  preserves keeps_well_formed (discoverAuthorizationServerMetadata env url).
Proof.
  intros w. apply same_tables_well_formed.
  unfold discoverAuthorizationServerMetadata. unfold_m.
  destruct (sdk_authServer env (calls w) url); repeat split.
Qed.

Lemma registerClient_well_formed (ep : string)
  (md : AuthorizationServerMetadata) (cm : OAuthClientMetadata) :
  preserves keeps_well_formed (registerClient env ep md cm).
Proof.
  intros w. apply same_tables_well_formed.
  unfold registerClient. unfold_m.
  destruct (sdk_register env (calls w) ep md cm); repeat split.
Qed.

Lemma exchange_well_formed (ep : string) (md : AuthorizationServerMetadata)
  (ci : OAuthClientInformation) (code ver redirect res : string) :
  preserves keeps_well_formed
    (exchangeAuthorization env ep md ci code ver redirect res).
Proof.
  intros w. apply same_tables_well_formed.
  unfold exchangeAuthorization. unfold_m.
  destruct (sdk_exchange env (calls w) ep md ci code ver redirect res);
    repeat split.
Qed.

Lemma refresh_well_formed (ep : string) (md : AuthorizationServerMetadata)
  (ci : OAuthClientInformation) (rt res : string) :
  preserves keeps_well_formed (refreshAuthorization env ep md ci rt res).
Proof.
  intros w. apply same_tables_well_formed.
  unfold refreshAuthorization. unfold_m.
  destruct (sdk_refresh env (calls w) ep md ci rt res); repeat split.
Qed.

Lemma calculateTokenExpiration_well_formed (expiresIn : option Z) :
  preserves keeps_well_formed (calculateTokenExpiration env expiresIn).
Proof.
  intros w. apply same_tables_well_formed.
  unfold calculateTokenExpiration. unfold_m. unfold Date_now.
  destruct (truthy_num expiresIn); repeat split.
Qed.

Lemma integration_upsert_well_formed (n : string) (u c : IntegrationData) :
  preserves keeps_well_formed (mcpIntegration_upsert n u c).
Proof.
  intros w [(Hnames & Hids & Hbound) (Hcids & Hkeys & Hcbound)].
  unfold mcpIntegration_upsert. unfold_m.
  destruct (find (named n) (integrations w)) as [old|] eqn:Hf; cbn [snd].
  - split; split; cbn [integrations connections nextId];
      rewrite ?(map_update_first mi_name), ?(map_update_first mi_id);
      try reflexivity; repeat split; assumption.
  - split; split; cbn [integrations connections nextId];
      rewrite ?map_app; cbn [map create_integration mi_name mi_id].
    + apply NoDup_snoc; [assumption | now apply find_named_none].
    + split.
      * apply NoDup_snoc; [assumption|]. intros Hin.
        specialize (Hbound _ Hin). lia.
      * intros id Hin. apply in_app_or in Hin as [Hin | [<- | []]];
          [specialize (Hbound _ Hin)|]; lia.
    + assumption.
    + split; [assumption|]. intros id Hin. specialize (Hcbound _ Hin). lia.
Qed.

Lemma connection_upsert_well_formed (a : string) (iid : nat)
  (u : ConnectionData) (create : nat -> McpConnection) :
  (forall id, mc_id (create id) = id /\ connection_key (create id) = (a, iid)) ->
  preserves keeps_well_formed (mcpConnection_upsert a iid u create).
Proof.
  intros Hcreate w [(Hnames & Hids & Hbound) (Hcids & Hkeys & Hcbound)].
  unfold mcpConnection_upsert. unfold_m.
  destruct (find (keyed a iid) (connections w)) as [old|] eqn:Hf; cbn [snd].
  - split; split; cbn [integrations connections nextId];
      rewrite ?(map_update_first mc_id), ?(map_update_first connection_key);
      try reflexivity; repeat split; assumption.
  - destruct (Hcreate (nextId w)) as [Hid Hkey].
    split; split; cbn [integrations connections nextId];
      rewrite ?map_app; cbn [map]; rewrite ?Hid, ?Hkey.
    + assumption.
    + split; [assumption|]. intros id Hin. specialize (Hbound _ Hin). lia.
    + apply NoDup_snoc; [assumption|]. intros Hin.
      specialize (Hcbound _ Hin). lia.
    + split.
      * apply NoDup_snoc; [assumption | now apply find_keyed_none].
      * intros id Hin. apply in_app_or in Hin as [Hin | [<- | []]];
          [specialize (Hcbound _ Hin)|]; lia.
Qed.

Lemma connection_update_well_formed (id : nat) (a : string)
  (d : ConnectionData) :
  preserves keeps_well_formed (mcpConnection_update id a d).
Proof.
  intros w [Hio (Hcids & Hkeys & Hcbound)].
  unfold mcpConnection_update. unfold_m.
  destruct (find (identified id a) (connections w)); cbn [snd];
    [|now split].
  split; [exact Hio|]. split; cbn [integrations connections nextId];
    rewrite ?(map_update_first mc_id), ?(map_update_first connection_key);
    try reflexivity; repeat split; assumption.
Qed.

Ltac well_formed_base :=
  first [ apply log_well_formed | apply Date_now_well_formed
        | apply protectedResource_well_formed | apply authServer_well_formed
        | apply registerClient_well_formed | apply exchange_well_formed
        | apply refresh_well_formed
        | apply calculateTokenExpiration_well_formed
        | apply integration_upsert_well_formed
        | apply connection_update_well_formed
        | apply connection_upsert_well_formed; intros; split; reflexivity ].

Ltac well_formed_walk extra :=
  preserve_with keeps_well_formed_refl keeps_well_formed_trans
    ltac:(first [well_formed_base | extra]).

Lemma discoverMetadata_well_formed (su i : string) :
  preserves keeps_well_formed (discoverMetadata env su i).
Proof.
  unfold discoverMetadata, upsertMcpIntegration. well_formed_walk fail.
Qed.

Lemma getOAuthClient_well_formed (i : string) (redirect : option string) :
  preserves keeps_well_formed (getOAuthClient env i redirect).
Proof.
  unfold getOAuthClient, upsertMcpIntegration.
  well_formed_walk ltac:(apply discoverMetadata_well_formed).
Qed.

Lemma handleOAuthCallback_well_formed (i code ver redirect a : string) :
  preserves keeps_well_formed (handleOAuthCallback env i code ver redirect a).
Proof.
  unfold handleOAuthCallback, getMetadataForIntegration.
  well_formed_walk ltac:(first [ apply getOAuthClient_well_formed
                               | apply discoverMetadata_well_formed ]).
Qed.

Lemma refreshOAuthTokens_well_formed (i a : string) :
  preserves keeps_well_formed (refreshOAuthTokens env i a).
Proof.
  unfold refreshOAuthTokens, getMetadataForIntegration.
  well_formed_walk ltac:(first [ apply getOAuthClient_well_formed
                               | apply discoverMetadata_well_formed ]).
Qed.

Lemma getValidAccessToken_well_formed (i a : string) :
  preserves keeps_well_formed (getValidAccessToken env i a).
Proof.
  unfold getValidAccessToken.
  well_formed_walk ltac:(apply refreshOAuthTokens_well_formed).
Qed.

Variable sdk_startAuthorization :
  World -> string -> AuthorizationServerMetadata -> OAuthClientInformation ->
  string -> string -> string -> string -> Result AuthorizationStart.

Lemma generateOAuthUrl_well_formed (i redirect state : string) :
  preserves keeps_well_formed
    (generateOAuthUrl env sdk_startAuthorization i redirect state).
Proof.
  unfold generateOAuthUrl, getMetadataForIntegration.
  well_formed_walk ltac:(first [ apply getOAuthClient_well_formed
                               | apply discoverMetadata_well_formed ]).
Qed.

Lemma getAuthToken_well_formed (i a : string) :
  preserves keeps_well_formed (getAuthToken env i a).
Proof.
  unfold getAuthToken.
  well_formed_walk ltac:(apply getValidAccessToken_well_formed).
Qed.

(** X11.  The operations keep the constraints of the store.  If, before,
    integration names are unique, ids are unique in both tables and there is
    at most one connection per (account, integration), then the same holds
    after starting a flow, completing one, refreshing, and asking for a
    token, whether the operation returns or throws: rows are only ever
    added through an upsert on the unique key. *)
Theorem operations_keep_store_constraints (w : World) :
  well_formed w ->
  (forall integration redirectUri state,
     well_formed (snd (generateOAuthUrl env sdk_startAuthorization integration
                         redirectUri state w))) /\
  (forall integration code codeVerifier redirectUri account,
     well_formed (snd (handleOAuthCallback env integration code codeVerifier
                         redirectUri account w))) /\
  (forall integration account,
     well_formed (snd (refreshOAuthTokens env integration account w))) /\
  (forall integration account,
     well_formed (snd (getAuthToken env integration account w))).
Proof.
  intros Hw. split; [|split; [|split]]; intros.
  - now apply generateOAuthUrl_well_formed.
  - now apply handleOAuthCallback_well_formed.
  - now apply refreshOAuthTokens_well_formed.
  - now apply getAuthToken_well_formed.
Qed.

End Constraints.

(** ** Completing a flow *)

Section Callback.

Variable env : Env.

(** What a completed flow leaves in the store. *)
Lemma handleOAuthCallback_inv (i code ver redirect a : string)
  (w w' : World) (tokens : OAuthTokens) :
  handleOAuthCallback env i code ver redirect a w = (inr tokens, w') ->
  exists db id,
    find (named i) (integrations w') = Some db /\
    connections w'
    = match find (keyed a (mi_id db)) (connections w) with
      | Some _ =>
          update_first (keyed a (mi_id db))
            (update_connection
               (callback_update tokens
                  (clock env (clockReads w) + lifetime_ms (expires_in tokens))))
            (connections w)
      | None =>
          (connections w
           ++ [callback_row i a (mi_id db) tokens
                 (clock env (clockReads w) + lifetime_ms (expires_in tokens))
                 id])%list
      end.
Proof.
  unfold handleOAuthCallback. intros H.
  unfold bind at 1 in H. unfold lift at 1 in H.
  destruct (getIntegration env i) as [e|cfg]; [discriminate|].
  destruct (truthy_val (serverUrl cfg)) as [url|]; [|discriminate].
  unfold bind at 1 in H.
  pose proof (getOAuthClient_quiet env i (Some redirect) w) as Q1.
  destruct (getOAuthClient env i (Some redirect) w) as [[e|ci] wa];
    [discriminate|].
  cbn [snd] in Q1.
  unfold bind at 1 in H. unfold getMetadataForIntegration in H.
  pose proof (discoverMetadata_quiet env (getOAuthServerUrl cfg) i wa) as Q2.
  destruct (discoverMetadata env (getOAuthServerUrl cfg) i wa)
    as [[e|md] wb]; [discriminate|].
  cbn [snd] in Q2.
  destruct (quiet_trans _ _ _ Q1 Q2) as (Qc & Qk & _).
  unfold bind at 1 in H. unfold lift at 1 in H.
  destruct (newURL env url) as [e|res]; [discriminate|].
  unfold bind at 1 in H. unfold exchangeAuthorization in H.
  unfold bind at 1 in H. unfold get_world at 1 in H.
  unfold bind at 1 in H. unfold record_call at 1 in H. unfold lift at 1 in H.
  destruct (sdk_exchange env (calls wb) (token_endpoint md) md ci code ver
              redirect res) as [e|tk]; [discriminate|].
  unfold bind at 1 in H.
  match type of H with
  | context [mcpIntegration_upsert i no_data no_data ?w0] =>
      destruct (upsert_lookup i no_data no_data w0)
        as (db & wc & Eu & Hdb & _ & Hconn & _ & Hclock & _)
  end.
  rewrite Eu in H.
  unfold bind at 1 in H.
  destruct (calculateTokenExpiration_run env (expires_in tk) wc)
    as (wd & Ecalc & Kc & Ki & _ & _).
  rewrite Ecalc in H.
  cbn [clockReads connections with_call] in Hclock, Hconn.
  rewrite Hclock, Qk in H.
  unfold bind at 1 in H.
  unfold mcpConnection_upsert in H. unfold_m.
  rewrite Kc, Hconn, Qc in H.
  exists db, (nextId wd).
  destruct (find (keyed a (mi_id db)) (connections w)) as [old|];
    cbn in H; inversion H; subst tk w'; cbn [integrations connections];
    rewrite Ki; split; try exact Hdb; rewrite ?Kc, ?Hconn, ?Qc; reflexivity.
Qed.

End Callback.

Section Rows.

Context {A : Type}.

Lemma filter_update_first (p : A -> bool) (f : A -> A) (l : list A) :
  (forall x, p x = true -> p (f x) = true) ->
  filter (fun x => negb (p x)) (update_first p f l)
  = filter (fun x => negb (p x)) l.
Proof.
  intros Hp. induction l as [|x rest IH]; cbn; [reflexivity|].
  destruct (p x) eqn:Hx; cbn.
  - rewrite (Hp x Hx). reflexivity.
  - rewrite Hx. cbn. now rewrite IH.
Qed.

Lemma length_update_first (p : A -> bool) (f : A -> A) (l : list A) :
  List.length (update_first p f l) = List.length l.
Proof.
  induction l as [|x rest IH]; cbn; [reflexivity|].
  destruct (p x); cbn; [reflexivity | now rewrite IH].
Qed.

Lemma find_ext_eq (p q : A -> bool) (l : list A) :
  (forall x, p x = q x) -> find p l = find q l.
Proof.
  intros H. induction l as [|x rest IH]; cbn; [reflexivity|].
  now rewrite H, IH.
Qed.

(** The first row that passes a filter also is the first to pass a stricter
    one, if it passes it. *)
Lemma find_stricter (k p : A -> bool) (l : list A) (c : A) :
  find k l = Some c -> (forall x, p x = true -> k x = true) ->
  p c = true -> find p l = Some c.
Proof.
  intros Hf Hpk Hc. induction l as [|x rest IH]; cbn in *; [discriminate|].
  destruct (k x) eqn:Hk.
  - inversion Hf; subst x. now rewrite Hc.
  - destruct (p x) eqn:Hp; [|now apply IH].
    rewrite (Hpk x Hp) in Hk. discriminate.
Qed.

Lemma NoDup_map_injective {B} (g : A -> B) (l : list A) (x y : A) :
  NoDup (map g l) -> In x l -> In y l -> g x = g y -> x = y.
Proof.
  induction l as [|z rest IH]; cbn; [contradiction|].
  intros Hnd Hx Hy Hg. inversion Hnd as [|? ? Hz Hrest]; subst.
  destruct Hx as [-> | Hx], Hy as [-> | Hy].
  - reflexivity.
  - exfalso. apply Hz. rewrite Hg. now apply in_map.
  - exfalso. apply Hz. rewrite <- Hg. now apply in_map.
  - now apply IH.
Qed.

End Rows.

(** With unique names and ids, the rows that the lookup of a connection
    accepts are the active rows of the account and of the row of that
    name. *)
Lemma active_connection_is_keyed (ints : list McpIntegration)
  (a i : string) (db : McpIntegration) :
  NoDup (map mi_name ints) -> NoDup (map mi_id ints) ->
  find (named i) ints = Some db ->
  forall x, active_connection_of ints a i x
            = keyed a (mi_id db) x && isActive x.
Proof.
  intros Hnames Hids Hdb x.
  apply find_some in Hdb as [Hin Hname]. unfold named in Hname.
  apply String.eqb_eq in Hname.
  unfold active_connection_of, keyed.
  destruct (emailAccountId x =? a)%string; [|reflexivity]. cbn [andb].
  f_equal.
  destruct (find (fun r => Nat.eqb (mi_id r) (integrationId x)) ints)
    as [r|] eqn:Hf.
  - apply find_some in Hf as [Hr Hid]. apply Nat.eqb_eq in Hid.
    unfold named.
    destruct (String.eqb_spec (mi_name r) i) as [Hn|Hn].
    + assert (r = db)
        by (apply (NoDup_map_injective mi_name ints); congruence).
      subst r. symmetry. apply Nat.eqb_eq. congruence.
    + symmetry. apply Nat.eqb_neq. intros Heq.
      assert (r = db)
        by (apply (NoDup_map_injective mi_id ints); congruence).
      subst r. contradiction.
  - symmetry. apply Nat.eqb_neq. intros Heq.
    pose proof (find_none _ _ Hf db Hin) as Hn. cbn in Hn.
    rewrite Heq, Nat.eqb_refl in Hn. discriminate.
Qed.

Section CallbackResults.

Variable env : Env.

(** X12.  Completing a flow touches one connection only.  When
    [handleOAuthCallback] returns, the rows of other accounts and of other
    integrations are exactly as before, in the same order; the row of the
    pair is updated in place if there was one, and otherwise one row is
    added. *)
Theorem handleOAuthCallback_touches_one_connection
  (integration code codeVerifier redirectUri account : string)
  (w w' : World) (tokens : OAuthTokens) :
  handleOAuthCallback env integration code codeVerifier redirectUri account w
  = (inr tokens, w') ->
  exists db,
    find (named integration) (integrations w') = Some db /\
    filter (fun c => negb (keyed account (mi_id db) c)) (connections w')
    = filter (fun c => negb (keyed account (mi_id db) c)) (connections w) /\
    List.length (connections w')
    = (List.length (connections w)
       + match find (keyed account (mi_id db)) (connections w) with
         | Some _ => 0
         | None => 1
         end)%nat.
Proof.
  intros H.
  destruct (handleOAuthCallback_inv env _ _ _ _ _ _ _ _ H)
    as (db & id & Hdb & Hconn).
  exists db. split; [exact Hdb|]. rewrite Hconn.
  destruct (find (keyed account (mi_id db)) (connections w)).
  - split.
    + apply filter_update_first. intros x Hx. exact Hx.
    + rewrite length_update_first. lia.
  - split.
    + rewrite filter_app. cbn. unfold keyed at 2. cbn.
      rewrite String.eqb_refl, Nat.eqb_refl. cbn. now rewrite app_nil_r.
    + rewrite length_app. reflexivity.
Qed.

(** X13.  A completed flow can be used at once.  On a store with unique
    integration names and ids, after [handleOAuthCallback] returns a
    non-empty access token, [getValidAccessToken] for the same account and
    integration returns that token without refreshing, as long as the clock
    it reads is not past the expiry that was stored. *)
Theorem connected_account_gets_its_token
  (integration code codeVerifier redirectUri account : string)
  (w w' : World) (tokens : OAuthTokens) :
  well_formed w ->
  handleOAuthCallback env integration code codeVerifier redirectUri account w
  = (inr tokens, w') ->
  access_token tokens <> "" ->
  clock env (clockReads w')
  <= clock env (clockReads w) + lifetime_ms (expires_in tokens) ->
  getValidAccessToken env integration account w'
  = (inr (access_token tokens), tick w').
Proof.
  intros Hwf H Htok Hclock.
  pose proof (handleOAuthCallback_well_formed env integration code codeVerifier
                redirectUri account w Hwf) as Hwf'.
  rewrite H in Hwf'. cbn [snd] in Hwf'.
  destruct Hwf' as [(Hnames & Hids & _) _].
  destruct (handleOAuthCallback_inv env _ _ _ _ _ _ _ _ H)
    as (db & id & Hdb & Hconn).
  set (expiry := clock env (clockReads w) + lifetime_ms (expires_in tokens)) in *.
  assert (Hrow : exists c',
             find (keyed account (mi_id db)) (connections w') = Some c' /\
             accessToken c' = Some (access_token tokens) /\
             expiresAt c' = Some expiry /\ isActive c' = true).
  { rewrite Hconn.
    destruct (find (keyed account (mi_id db)) (connections w)) as [old|] eqn:Hf.
    - eexists. split.
      + apply find_update_first_hit; [exact Hf|].
        apply find_some in Hf as [_ Hk]. exact Hk.
      + repeat split.
    - eexists. split.
      + rewrite find_snoc, Hf. unfold keyed at 1. cbn.
        now rewrite String.eqb_refl, Nat.eqb_refl.
      + repeat split. }
  destruct Hrow as (c' & Hfind & Hat & Hexp & Hact).
  assert (Hc : connection_of w' account integration = Some c').
  { unfold connection_of.
    rewrite (find_ext_eq _ _ _
               (active_connection_is_keyed (integrations w') account
                  integration db Hnames Hids Hdb)).
    apply (find_stricter (keyed account (mi_id db))).
    - exact Hfind.
    - intros x Hx. now apply andb_prop in Hx.
    - rewrite Hact. apply find_some in Hfind as [_ ->]. reflexivity. }
  rewrite (getValidAccessToken_found env integration account w' c' _ Hc Hat Htok).
  cbv zeta. rewrite Hexp.
  replace (expiry <? clock env (clockReads w')) with false
    by (symmetry; apply Z.ltb_ge; lia).
  reflexivity.
Qed.

End CallbackResults.

Lemma empty_store_well_formed : well_formed empty_store.
Proof.
  unfold well_formed, integrations_ok, connections_ok. cbn.
  repeat match goal with |- _ /\ _ => split end;
    try apply NoDup_nil; intros id [].
Qed.

Lemma handleOAuthCallback_touches_one_connection_witness :
  List.length
    (connections
       (snd (handleOAuthCallback provider "acme" "code" "verifier"
               "https://app.example/callback" "acct-1" empty_store)))
  = 1%nat.
Proof.
  assert (E : handleOAuthCallback provider "acme" "code" "verifier"
                "https://app.example/callback" "acct-1" empty_store
              = (inr {| access_token := "at-fresh"; token_type := "Bearer";
                        expires_in := Some 3600; refresh_token := None |},
                 snd (handleOAuthCallback provider "acme" "code" "verifier"
                        "https://app.example/callback" "acct-1" empty_store)))
    by (vm_compute; reflexivity).
  destruct (handleOAuthCallback_touches_one_connection provider _ _ _ _ _ _ _ _ E)
    as (db & _ & _ & Hlen).
  rewrite Hlen. reflexivity.
Defined.

Lemma connected_account_gets_its_token_witness :
  fst (getValidAccessToken provider "acme" "acct-1"
         (snd (handleOAuthCallback provider "acme" "code" "verifier"
                 "https://app.example/callback" "acct-1" empty_store)))
  = inr "at-fresh".
Proof.
  assert (E : handleOAuthCallback provider "acme" "code" "verifier"
                "https://app.example/callback" "acct-1" empty_store
              = (inr {| access_token := "at-fresh"; token_type := "Bearer";
                        expires_in := Some 3600; refresh_token := None |},
                 snd (handleOAuthCallback provider "acme" "code" "verifier"
                        "https://app.example/callback" "acct-1" empty_store)))
    by (vm_compute; reflexivity).
  rewrite (connected_account_gets_its_token provider _ _ _ _ _ _ _ _
             empty_store_well_formed E).
  - reflexivity.
  - discriminate.
  - vm_compute. discriminate.
Defined.

Lemma operations_keep_store_constraints_witness :
  well_formed
    (snd (handleOAuthCallback provider "acme" "code" "verifier"
            "https://app.example/callback" "acct-1" empty_store)).
Proof.
  exact (proj1 (proj2 (operations_keep_store_constraints provider pkce_start
                         empty_store empty_store_well_formed))
               "acme" "code" "verifier" "https://app.example/callback"
               "acct-1").
Defined.

(** ** Refreshing *)

Lemma directory_names (l l' : list McpIntegration) :
  directory l' = directory l -> map mi_name l' = map mi_name l.
Proof.
  unfold directory. intros H.
  apply (f_equal (map snd)) in H. rewrite !map_map in H. exact H.
Qed.

Lemma directory_join (l l' : list McpIntegration) (k : nat) :
  directory l' = directory l ->
  option_map mi_name (find (fun r => Nat.eqb (mi_id r) k) l')
  = option_map mi_name (find (fun r => Nat.eqb (mi_id r) k) l).
Proof.
  unfold directory. revert l'.
  induction l as [|r rest IH]; intros [|r' rest'] H; cbn in *;
    try discriminate; [reflexivity|].
  inversion H as [[Hid Hname Hrest]]. rewrite Hid.
  destruct (Nat.eqb (mi_id r) k); cbn; [now rewrite Hname | now apply IH].
Qed.

Lemma directory_active (l l' : list McpIntegration) (a i : string)
  (x : McpConnection) :
  directory l' = directory l ->
  active_connection_of l' a i x = active_connection_of l a i x.
Proof.
  intros H. unfold active_connection_of.
  pose proof (directory_join l l' (integrationId x) H) as J.
  destruct (find _ l') as [r'|], (find _ l) as [r|]; cbn in J;
    try discriminate; [|reflexivity].
  inversion J as [Hn]. unfold named. now rewrite Hn.
Qed.

Lemma same_directory_refl (n : string) (w : World) : same_directory n w w.
Proof. intros _. reflexivity. Qed.

Lemma same_directory_trans (n : string) (a b c : World) :
  same_directory n a b -> same_directory n b c -> same_directory n a c.
Proof.
  intros H K Hin. specialize (H Hin). rewrite <- H. apply K.
  now rewrite (directory_names _ _ H).
Qed.

Lemma same_tables_directory (n : string) (w w' : World) :
  integrations w' = integrations w -> same_directory n w w'.
Proof. intros H _. now rewrite H. Qed.

Section RefreshResults.

Variable env : Env.

Lemma upsert_same_directory (n : string) (u c : IntegrationData) :
  preserves (same_directory n) (mcpIntegration_upsert n u c).
Proof.
  intros w Hin. unfold mcpIntegration_upsert. unfold_m.
  destruct (find (named n) (integrations w)) as [old|] eqn:Hf; cbn [snd].
  - cbn [integrations]. unfold directory. now apply map_update_first.
  - exfalso. now apply (find_named_none n (integrations w)).
Qed.

Lemma log_same_directory (n : string) (l : LogLevel) (msg : string)
  (err : option JsError) :
  preserves (same_directory n) (log l msg err).
Proof. intros w. now apply same_tables_directory. Qed.

Lemma protectedResource_same_directory (n url : string) :
  preserves (same_directory n) (discoverOAuthProtectedResourceMetadata env url).
Proof.
  intros w. apply same_tables_directory.
  unfold discoverOAuthProtectedResourceMetadata. unfold_m.
  destruct (sdk_protectedResource env (calls w) url); reflexivity.
Qed.

Lemma authServer_same_directory (n url : string) :
  preserves (same_directory n) (discoverAuthorizationServerMetadata env url).
Proof.
  intros w. apply same_tables_directory.
  unfold discoverAuthorizationServerMetadata. unfold_m.
  destruct (sdk_authServer env (calls w) url); reflexivity.
Qed.

Lemma registerClient_same_directory (n ep : string)
  (md : AuthorizationServerMetadata) (cm : OAuthClientMetadata) :
  preserves (same_directory n) (registerClient env ep md cm).
Proof.
  intros w. apply same_tables_directory.
  unfold registerClient. unfold_m.
  destruct (sdk_register env (calls w) ep md cm); reflexivity.
Qed.

Ltac directory_walk n extra :=
  preserve_with (same_directory_refl n) (same_directory_trans n)
    ltac:(first [ apply upsert_same_directory | apply log_same_directory
                | apply protectedResource_same_directory
                | apply authServer_same_directory
                | apply registerClient_same_directory | extra ]).

Lemma discoverMetadata_same_directory (su i : string) :
  preserves (same_directory i) (discoverMetadata env su i).
Proof.
  unfold discoverMetadata, upsertMcpIntegration. directory_walk i fail.
Qed.

Lemma getOAuthClient_same_directory (i : string) (redirect : option string) :
  preserves (same_directory i) (getOAuthClient env i redirect).
Proof.
  unfold getOAuthClient, upsertMcpIntegration.
  directory_walk i ltac:(apply discoverMetadata_same_directory).
Qed.

(** A refresh that returns: the row it read, the row it wrote and the
    integration rows it met. *)
Lemma refreshOAuthTokens_rows (i a : string) (w w' : World)
  (tokens : OAuthTokens) :
  refreshOAuthTokens env i a w = (inr tokens, w') ->
  exists c,
    connection_of w a i = Some c /\
    directory (integrations w') = directory (integrations w) /\
    connections w'
    = update_first (identified (mc_id c) a)
        (update_connection
           {| cd_accessToken := Some (access_token tokens);
              cd_refreshToken :=
                Js.or_else (refresh_token tokens) (refreshToken c);
              cd_expiresAt :=
                Some (clock env (clockReads w)
                      + lifetime_ms (expires_in tokens));
              cd_isActive := None |})
        (connections w).
Proof.
  intros H.
  destruct (refreshOAuthTokens_inv env i a w w' tokens H)
    as (c & rt & w1 & md & ci & res & Hc & _ & _ & _ & _ & Hconn).
  exists c. split; [exact Hc|]. split; [|exact Hconn].
  assert (Hin : In i (map mi_name (integrations w))).
  { unfold connection_of in Hc. apply find_some in Hc as [_ Hp].
    unfold active_connection_of in Hp.
    apply andb_prop in Hp as [Hp _]. apply andb_prop in Hp as [_ Hp].
    destruct (find _ (integrations w)) as [r|] eqn:Hf; [|discriminate].
    apply find_some in Hf as [Hr _]. unfold named in Hp.
    apply String.eqb_eq in Hp. rewrite <- Hp. now apply in_map. }
  assert (P : preserves (same_directory i) (refreshOAuthTokens env i a)).
  { unfold refreshOAuthTokens, getMetadataForIntegration.
    directory_walk i
      ltac:(first [ apply getOAuthClient_same_directory
                  | apply discoverMetadata_same_directory
                  | intros w0; apply same_tables_directory;
                    unfold refreshAuthorization, calculateTokenExpiration,
                      mcpConnection_update, Date_now;
                    unfold_m;
                    repeat match goal with
                           | |- context [match ?x with _ => _ end] =>
                               destruct x
                           end; reflexivity ]). }
  specialize (P w Hin). now rewrite H in P.
Qed.

End RefreshResults.

Lemma find_after_update_by_id (p : McpConnection -> bool)
  (f : McpConnection -> McpConnection) (l : list McpConnection)
  (c : McpConnection) :
  NoDup (map mc_id l) -> find p l = Some c ->
  mc_id (f c) = mc_id c -> (forall x, p (f x) = p x) ->
  find p (update_first (identified (mc_id c) (emailAccountId c)) f l)
  = Some (f c).
Proof.
  intros Hnd Hf Hid Hp. induction l as [|x rest IH]; cbn in *; [discriminate|].
  inversion Hnd as [|? ? Hx Hrest]; subst.
  destruct (p x) eqn:Hpx.
  - inversion Hf; subst x. unfold identified at 1.
    rewrite Nat.eqb_refl, String.eqb_refl. cbn.
    now rewrite Hp, Hpx.
  - assert (Hne : mc_id x <> mc_id c).
    { intros E. apply Hx. rewrite E. apply in_map.
      apply (find_some p rest Hf). }
    unfold identified at 1.
    replace (Nat.eqb (mc_id x) (mc_id c)) with false
      by (symmetry; now apply Nat.eqb_neq).
    cbn. rewrite Hpx. now apply IH.
Qed.

Section RefreshUse.

Variable env : Env.

(** X14.  A refresh rewrites three columns of one row.  When
    [refreshOAuthTokens] returns, on a connection table with unique ids, the
    rows other than the one it read are exactly as before, in the same
    order, no row is added, and the row it read has the expiry computed
    from the token response and the same account, integration, activity
    flag and API key as before. *)
Theorem refreshOAuthTokens_touches_one_row (integration account : string)
  (w w' : World) (tokens : OAuthTokens) :
  NoDup (map mc_id (connections w)) ->
  refreshOAuthTokens env integration account w = (inr tokens, w') ->
  exists c c',
    connection_of w account integration = Some c /\
    find (fun x => Nat.eqb (mc_id x) (mc_id c)) (connections w') = Some c' /\
    expiresAt c'
    = Some (clock env (clockReads w) + lifetime_ms (expires_in tokens)) /\
    connection_key c' = connection_key c /\
    isActive c' = isActive c /\ apiKey c' = apiKey c /\
    filter (fun x => negb (identified (mc_id c) account x)) (connections w')
    = filter (fun x => negb (identified (mc_id c) account x)) (connections w) /\
    List.length (connections w') = List.length (connections w).
Proof.
  intros Hnd H.
  destruct (refreshOAuthTokens_rows env _ _ _ _ _ H) as (c & Hc & _ & Hconn).
  destruct (connection_of_account w account integration c Hc) as [Hin Hacc].
  eexists c, _. split; [exact Hc|]. rewrite Hconn. split.
  - rewrite <- Hacc.
    apply find_by_id_after_update; [assumption | assumption | reflexivity].
  - repeat split.
    + apply filter_update_first. intros x Hx. exact Hx.
    + apply length_update_first.
Qed.

(** X15.  A refreshed token is served without a second refresh.  After
    [refreshOAuthTokens] returns a non-empty access token, on a connection
    table with unique ids, [getValidAccessToken] for the same account and
    integration returns that token and only reads the clock, as long as the
    clock it reads is not past the new expiry. *)
Theorem refreshed_token_is_served (integration account : string)
  (w w' : World) (tokens : OAuthTokens) :
  NoDup (map mc_id (connections w)) ->
  refreshOAuthTokens env integration account w = (inr tokens, w') ->
  access_token tokens <> "" ->
  clock env (clockReads w')
  <= clock env (clockReads w) + lifetime_ms (expires_in tokens) ->
  getValidAccessToken env integration account w'
  = (inr (access_token tokens), tick w').
Proof.
  intros Hnd H Htok Hclock.
  destruct (refreshOAuthTokens_rows env _ _ _ _ _ H) as (c & Hc & Hdir & Hconn).
  destruct (connection_of_account w account integration c Hc) as [Hin Hacc].
  set (expiry := clock env (clockReads w) + lifetime_ms (expires_in tokens)) in *.
  match type of Hconn with
  | _ = update_first _ ?f _ =>
      assert (Hc' : connection_of w' account integration = Some (f c))
  end.
  { unfold connection_of.
    rewrite (find_ext_eq _ _ _
               (fun x => directory_active (integrations w) (integrations w')
                           account integration x Hdir)).
    rewrite Hconn, <- Hacc.
    apply find_after_update_by_id;
      [assumption | rewrite Hacc; exact Hc | reflexivity | reflexivity]. }
  rewrite (getValidAccessToken_found env integration account w' _ _ Hc'
             eq_refl Htok).
  cbv zeta. cbn [expiresAt update_connection assign option_map cd_expiresAt].
  replace (expiry <? clock env (clockReads w')) with false
    by (symmetry; apply Z.ltb_ge; lia).
  reflexivity.
Qed.

End RefreshUse.

Lemma refreshOAuthTokens_touches_one_row_witness :
  List.length
    (connections
       (snd (refreshOAuthTokens provider "acme" "acct-1"
               (store (Some 1699999999999) (Some "rt-old")))))
  = 1%nat.
Proof.
  assert (E : refreshOAuthTokens provider "acme" "acct-1"
                (store (Some 1699999999999) (Some "rt-old"))
              = (inr {| access_token := "at-new"; token_type := "Bearer";
                        expires_in := None; refresh_token := None |},
                 snd (refreshOAuthTokens provider "acme" "acct-1"
                        (store (Some 1699999999999) (Some "rt-old")))))
    by (vm_compute; reflexivity).
  destruct (refreshOAuthTokens_touches_one_row provider "acme" "acct-1"
              (store (Some 1699999999999) (Some "rt-old")) _ _
              ltac:(repeat constructor; cbn; intuition discriminate) E)
    as (c & c' & _ & _ & _ & _ & _ & _ & _ & Hlen).
  rewrite Hlen. reflexivity.
Defined.

Lemma refreshed_token_is_served_witness :
  fst (getValidAccessToken provider "acme" "acct-1"
         (snd (refreshOAuthTokens provider "acme" "acct-1"
                 (store (Some 1699999999999) (Some "rt-old")))))
  = inr "at-new".
Proof.
  assert (E : refreshOAuthTokens provider "acme" "acct-1"
                (store (Some 1699999999999) (Some "rt-old"))
              = (inr {| access_token := "at-new"; token_type := "Bearer";
                        expires_in := None; refresh_token := None |},
                 snd (refreshOAuthTokens provider "acme" "acct-1"
                        (store (Some 1699999999999) (Some "rt-old")))))
    by (vm_compute; reflexivity).
  rewrite (refreshed_token_is_served provider "acme" "acct-1"
             (store (Some 1699999999999) (Some "rt-old")) _ _
             ltac:(repeat constructor; cbn; intuition discriminate) E).
  - reflexivity.
  - discriminate.
  - vm_compute. discriminate.
Defined.

(** ** Rule selection *)

Lemma find_first_split {A} (p : A -> bool) (l : list A) (x : A) :
  find p l = Some x ->
  exists before after,
    l = (before ++ x :: after)%list /\ p x = true /\
    forall y, In y before -> p y = false.
Proof.
  induction l as [|z rest IH]; cbn; [discriminate|].
  destruct (p z) eqn:Hz; intros H.
  - inversion H; subst z. exists [], rest. repeat split; [exact Hz|].
    intros y [].
  - destruct (IH H) as (before & after & -> & Hx & Hb).
    exists (z :: before), after. repeat split; [exact Hx|].
    intros y [<- | Hy]; [exact Hz | now apply Hb].
Qed.

Section ChooseRuleFacts.

Variable T : Type.
Variable name : T -> string.
Variable toLowerCase : string -> string.
Variable getAiResponse : list T -> Result AiResponse.

(** X16.  [aiChooseRule] never invents a rule.  A rule it returns is one of
    the rules it was given: the first whose name equals, up to case, the
    rule name in the model's answer, and the answer did not say that no
    match was found; the reason returned is the model's, and nothing is
    logged.  Conversely, when the answer names, up to case, one of the
    rules and does not say that no match was found, a rule is returned. *)
Theorem aiChooseRule_returns_listed_rule (rules : list T) (w : World) :
  let run := aiChooseRule T name toLowerCase getAiResponse rules w in
  (forall result w' rule,
     run = (inr result, w') -> chosen_rule result = Some rule ->
     w' = w /\
     exists response before after,
       getAiResponse rules = inr response /\
       ai_noMatchFound response = false /\
       chosen_reason result = ai_reason response /\
       rules = (before ++ rule :: after)%list /\
       toLowerCase (name rule) = toLowerCase (ai_ruleName response) /\
       forall earlier, In earlier before ->
         toLowerCase (name earlier) <> toLowerCase (ai_ruleName response)) /\
  (forall response rule,
     getAiResponse rules = inr response ->
     ai_noMatchFound response = false ->
     ai_ruleName response <> "" ->
     In rule rules ->
     toLowerCase (name rule) = toLowerCase (ai_ruleName response) ->
     exists chosen, fst run = inr {| chosen_rule := Some chosen;
                                     chosen_reason := ai_reason response |}).
Proof.
  cbv zeta. split.
  - intros result w' rule H Hrule.
    unfold aiChooseRule in H. destruct rules as [|r0 rest]; unfold_m.
    + inversion H; subst. discriminate.
    + destruct (getAiResponse (r0 :: rest)) as [e|response]; [discriminate|].
      destruct (ai_noMatchFound response) eqn:Hno.
      * inversion H; subst. discriminate.
      * destruct (Js.truthy (ai_ruleName response)); cbn [andb] in H.
        -- destruct (find _ (r0 :: rest)) as [found|] eqn:Hf;
             cbn in H; inversion H; subst result w'; cbn in Hrule;
             [|discriminate].
           inversion Hrule; subst found. split; [reflexivity|].
           destruct (find_first_split _ _ _ Hf)
             as (before & after & Hl & Hx & Hb).
           exists response, before, after. repeat split; try assumption.
           ++ now apply String.eqb_eq.
           ++ intros earlier Hin. now apply String.eqb_neq, Hb.
        -- cbn in H. inversion H; subst. discriminate.
  - intros response rule Hans Hno Hname Hin Heq.
    unfold aiChooseRule. destruct rules as [|r0 rest]; [contradiction|].
    unfold_m. rewrite Hans, Hno.
    replace (Js.truthy (ai_ruleName response)) with true
      by (unfold Js.truthy; destruct (String.eqb_spec (ai_ruleName response) "");
          [contradiction | reflexivity]).
    cbn [andb].
    destruct (find _ (r0 :: rest)) as [found|] eqn:Hf.
    + exists found. reflexivity.
    + exfalso. pose proof (find_none _ _ Hf rule Hin) as Hn. cbn in Hn.
      rewrite Heq, String.eqb_refl in Hn. discriminate.
Qed.

(** X17.  When [aiChooseRule] selects nothing.  Without rules it answers
    "No rules" and leaves the world as it is, whatever the model would say
    or throw: the model is not asked.  With rules, an answer that says no
    match was found gives "No match found" even if it names a rule; an
    answer with an empty rule name gives no rule and the model's reason;
    an answer naming no listed rule gives no rule and the model's reason,
    and this is the one case that logs an error.  An error of the model
    call is rethrown. *)
Theorem aiChooseRule_without_selection (rules : list T) (w : World) :
  let run := aiChooseRule T name toLowerCase getAiResponse rules w in
  (rules = [] ->
   run = (inr {| chosen_rule := None; chosen_reason := "No rules" |}, w)) /\
  (rules <> [] ->
   (forall e, getAiResponse rules = inl e -> run = (inl e, w)) /\
   (forall response, getAiResponse rules = inr response ->
      (ai_noMatchFound response = true ->
       run = (inr {| chosen_rule := None;
                     chosen_reason := "No match found" |}, w)) /\
      (ai_noMatchFound response = false -> ai_ruleName response = "" ->
       run = (inr {| chosen_rule := None;
                     chosen_reason := ai_reason response |}, w)) /\
      (ai_noMatchFound response = false -> ai_ruleName response <> "" ->
       (forall rule, In rule rules ->
          toLowerCase (name rule) <> toLowerCase (ai_ruleName response)) ->
       run = (inr {| chosen_rule := None;
                     chosen_reason := ai_reason response |},
              with_log no_matching_rule_line w)))).
Proof.
  cbv zeta. split.
  - intros ->. reflexivity.
  - intros Hne. unfold aiChooseRule.
    destruct rules as [|r0 rest]; [contradiction|]. unfold_m.
    split.
    + intros e ->. reflexivity.
    + intros response ->. split; [|split].
      * intros ->. reflexivity.
      * intros -> ->. reflexivity.
      * intros -> Hname Hnone.
        replace (Js.truthy (ai_ruleName response)) with true
          by (unfold Js.truthy;
              destruct (String.eqb_spec (ai_ruleName response) "");
              [contradiction | reflexivity]).
        destruct (find _ (r0 :: rest)) as [found|] eqn:Hf; [|reflexivity].
        exfalso. apply find_some in Hf as [Hin Heq].
        apply String.eqb_eq in Heq. exact (Hnone found Hin Heq).
Qed.

End ChooseRuleFacts.

Lemma aiChooseRule_returns_listed_rule_witness :
  exists chosen,
    fst (aiChooseRule (string * string) fst lower
           (answering {| ai_reason := "A product update";
                         ai_ruleName := "NEWSLETTER";
                         ai_noMatchFound := false |})
           inbox_rules empty_store)
    = inr {| chosen_rule := Some chosen;
             chosen_reason := "A product update" |}.
Proof.
  refine (proj2 (aiChooseRule_returns_listed_rule (string * string) fst lower
                   (answering {| ai_reason := "A product update";
                                 ai_ruleName := "NEWSLETTER";
                                 ai_noMatchFound := false |})
                   inbox_rules empty_store)
            _ ("Newsletter", "Newsletters and product updates")
            eq_refl eq_refl _ _ eq_refl).
  - discriminate.
  - left. reflexivity.
Defined.

Lemma aiChooseRule_without_selection_witness :
  aiChooseRule (string * string) fst lower
    (answering {| ai_reason := "Looks like spam";
                  ai_ruleName := "Spam";
                  ai_noMatchFound := false |})
    inbox_rules empty_store
  = (inr {| chosen_rule := None; chosen_reason := "Looks like spam" |},
     with_log no_matching_rule_line empty_store).
Proof.
  refine (proj2 (proj2 (proj2 (proj2 (aiChooseRule_without_selection
            (string * string) fst lower
            (answering {| ai_reason := "Looks like spam";
                          ai_ruleName := "Spam";
                          ai_noMatchFound := false |})
            inbox_rules empty_store) _) _ eq_refl)) eq_refl _ _).
  - discriminate.
  - discriminate.
  - intros rule [<- | [<- | []]]; discriminate.
Defined.

(** ** The token requests *)

Section TokenRequests.

Variable env : Env.


(** X19.  The one request of a refresh.  When [refreshOAuthTokens]
    returns, everything it sent before the refresh exchange belongs to
    discovery or registration, the refresh exchange is its last request, it
    carried the refresh token of the connection it read, its resource is
    the integration's own server URL, and the tokens returned are the
    answer to it, unchanged. *)
Theorem refreshOAuthTokens_exchange (integration account : string)
  (w w' : World) (tokens : OAuthTokens) :
  refreshOAuthTokens env integration account w = (inr tokens, w') ->
  exists cfg url resource metadata client before c stored,
    getIntegration env integration = inr cfg /\
    serverUrl cfg = Some url /\
    newURL env url = inr resource /\
    connection_of w account integration = Some c /\
    refreshToken c = Some stored /\
    setup_only w before /\
    calls w'
    = (calls before
       ++ [RefreshExchange (token_endpoint metadata) stored resource])%list /\
    sdk_refresh env (calls before) (token_endpoint metadata) metadata client
      stored resource
    = inr tokens.
Proof.
  unfold refreshOAuthTokens. intros H.
  unfold bind at 1 in H. unfold lift at 1 in H.
  destruct (getIntegration env integration) as [e|cfg] eqn:Hcfg;
    [discriminate|].
  destruct (truthy_val (serverUrl cfg)) as [url|] eqn:Hurl; [|discriminate].
  apply truthy_val_some in Hurl as [Hurl _].
  unfold bind at 1 in H. unfold mcpConnection_findFirst at 1 in H.
  fold (connection_of w account integration) in H.
  destruct (connection_of w account integration) as [c|] eqn:Hc;
    [|discriminate].
  cbn [opt_field] in H.
  destruct (truthy_val (refreshToken c)) as [rt|] eqn:Hrt; [|discriminate].
  apply truthy_val_some in Hrt as [Hrt _].
  unfold bind at 1 in H.
  pose proof (getOAuthClient_setup_only env integration None w) as S1.
  destruct (getOAuthClient env integration None w) as [[e|ci] wa];
    [discriminate|].
  cbn [snd] in S1.
  unfold bind at 1 in H. unfold getMetadataForIntegration in H.
  pose proof (discoverMetadata_setup_only env (getOAuthServerUrl cfg)
                integration wa) as S2.
  destruct (discoverMetadata env (getOAuthServerUrl cfg) integration wa)
    as [[e|md] wb]; [discriminate|].
  cbn [snd] in S2.
  unfold bind at 1 in H. unfold lift at 1 in H.
  destruct (newURL env url) as [e|res] eqn:Hres; [discriminate|].
  unfold bind at 1 in H. unfold refreshAuthorization in H.
  unfold bind at 1 in H. unfold get_world at 1 in H.
  unfold bind at 1 in H. unfold record_call at 1 in H. unfold lift at 1 in H.
  destruct (sdk_refresh env (calls wb) (token_endpoint md) md ci rt res)
    as [e|tk] eqn:Hsdk; [discriminate|].
  match type of H with
  | ?m ?w0 = _ => assert (P : preserves same_calls m)
  end.
  { preserve_with same_calls_refl same_calls_trans
      ltac:(first [ apply log_same_calls
                  | apply calculateTokenExpiration_same_calls
                  | apply connection_update_same_calls ]). }
  match type of H with
  | ?m ?w0 = _ => specialize (P w0); rewrite H in P
  end.
  unfold same_calls in P. cbn [snd calls with_call] in P.
  assert (Htk : tk = tokens).
  { revert H. unfold bind at 1.
    match goal with
    | |- context [calculateTokenExpiration env ?x ?w0] =>
        destruct (calculateTokenExpiration_run env x w0) as (wc & -> & _)
    end.
    unfold bind at 1.
    destruct (mcpConnection_update _ _ _ wc) as [[e|c'] wd];
      [discriminate|].
    unfold_m. cbn. intros H. now inversion H. }
  subst tk.
  exists cfg, url, res, md, ci, wb, c, rt.
  repeat split; try assumption.
  exact (setup_only_trans _ _ _ S1 S2).
Qed.

End TokenRequests.


Lemma refreshOAuthTokens_exchange_witness :
  exists cfg url resource metadata client before c stored,
    getIntegration provider "acme" = inr cfg /\
    serverUrl cfg = Some url /\
    newURL provider url = inr resource /\
    connection_of (store (Some 1699999999999) (Some "rt-old")) "acct-1" "acme"
    = Some c /\
    refreshToken c = Some stored /\
    setup_only (store (Some 1699999999999) (Some "rt-old")) before /\
    calls (snd (refreshOAuthTokens provider "acme" "acct-1"
                  (store (Some 1699999999999) (Some "rt-old"))))
    = (calls before
       ++ [RefreshExchange (token_endpoint metadata) stored resource])%list /\
    sdk_refresh provider (calls before) (token_endpoint metadata) metadata
      client stored resource
    = inr {| access_token := "at-new"; token_type := "Bearer";
             expires_in := None; refresh_token := None |}.
Proof.
  refine (refreshOAuthTokens_exchange provider "acme" "acct-1"
            (store (Some 1699999999999) (Some "rt-old")) _ _ _).
  vm_compute. reflexivity.
Defined.

(** ** Repeated writes *)

Section Idempotence.

Context {A : Type}.

Lemma update_first_idempotent (p : A -> bool) (f : A -> A) (l : list A) :
  (forall x, p (f x) = p x) -> (forall x, f (f x) = f x) ->
  update_first p f (update_first p f l) = update_first p f l.
Proof.
  intros Hp Hf. induction l as [|x rest IH]; cbn; [reflexivity|].
  destruct (p x) eqn:Hx; cbn.
  - now rewrite Hp, Hx, Hf.
  - now rewrite Hx, IH.
Qed.

Lemma update_first_app_none (p : A -> bool) (f : A -> A) (l l' : list A) :
  find p l = None ->
  update_first p f (l ++ l') = (l ++ update_first p f l')%list.
Proof.
  induction l as [|x rest IH]; cbn; [reflexivity|].
  destruct (p x); [discriminate|]. intros H. now rewrite IH.
Qed.

End Idempotence.

Lemma update_integration_idempotent (d : IntegrationData) (r : McpIntegration) :
  update_integration d (update_integration d r) = update_integration d r.
Proof.
  destruct d as [a t s i k], r. unfold update_integration. cbn.
  destruct a, t, s, i, k; reflexivity.
Qed.

Lemma update_created_integration (id : nat) (n : string) (d : IntegrationData) :
  update_integration d (create_integration id n d) = create_integration id n d.
Proof.
  destruct d as [a t s i k]. unfold update_integration, create_integration.
  cbn. destruct a, t, s, i, k; reflexivity.
Qed.

(** X20.  Writing the same data twice is writing it once.  A second
    [upsertMcpIntegration] with the same name and data returns the same row
    as the first and leaves both tables and the identifier supply as the
    first left them: it adds no row and changes no column. *)
Theorem upsertMcpIntegration_idempotent (integration : string)
  (data : IntegrationData) (w : World) :
  let first := upsertMcpIntegration integration data w in
  let second := upsertMcpIntegration integration data (snd first) in
  fst second = fst first /\
  integrations (snd second) = integrations (snd first) /\
  connections (snd second) = connections (snd first) /\
  nextId (snd second) = nextId (snd first).
Proof.
  cbv zeta.
  destruct (upsert_lookup integration data data w)
    as (r & w1 & E1 & Hfind & Hr & _).
  unfold upsertMcpIntegration. rewrite E1. cbn [fst snd].
  assert (Hints : integrations w1
                  = match find (named integration) (integrations w) with
                    | Some _ =>
                        update_first (named integration)
                          (update_integration data) (integrations w)
                    | None => (integrations w ++ [r])%list
                    end).
  { revert E1. unfold mcpIntegration_upsert. unfold_m.
    destruct (find (named integration) (integrations w)); cbn;
      intros E; inversion E; reflexivity. }
  assert (Hfix : update_integration data r = r).
  { rewrite Hr. destruct (find (named integration) (integrations w));
      [apply update_integration_idempotent | apply update_created_integration]. }
  unfold mcpIntegration_upsert. unfold_m. rewrite Hfind. cbn.
  rewrite Hfix. repeat split. rewrite Hints.
  destruct (find (named integration) (integrations w)) eqn:Hf.
  - apply update_first_idempotent; [reflexivity|].
    apply update_integration_idempotent.
  - rewrite (update_first_app_none _ _ _ _ Hf). cbn.
    replace (named integration r) with true
      by (symmetry; apply (find_some _ _ Hfind)).
    now rewrite Hfix.
Qed.
